(* Shallow embedding of src/hooker.py (notificator webhook relay).

   Python strings are sequences of code points, modelled as [list Z].
   Logging calls are kept as [ELog] effects; database writes, outbound
   HTTP posts and backoff sleeps are effects as well.  Everything the
   handler receives from its environment (clock, database failures,
   Telegram API replies) is an explicit input. *)

From Stdlib Require Import String Ascii ZArith List Bool Lia.
From Stdlib Require Import Sorting.Sorted.
Import ListNotations.
Open Scope Z_scope.

(* ------------------------------------------------------------------ *)
(** * Strings *)

Definition pystr := list Z.

(** A Python string literal (all literals used here are ASCII). *)
Definition lit (s : string) : pystr :=
  map (fun a => Z.of_nat (nat_of_ascii a)) (list_ascii_of_string s).

Definition pystr_eqb (a b : pystr) : bool :=
  if list_eq_dec Z.eq_dec a b then true else false.

Fixpoint digits_aux (fuel : nat) (n : Z) (acc : pystr) : pystr :=
  match fuel with
  | O => acc
  | S f =>
      let acc' := (48 + n mod 10) :: acc in
      if n <? 10 then acc' else digits_aux f (n / 10) acc'
  end.

(** [str(n)] for an int. *)
Definition z_str (n : Z) : pystr :=
  let fuel := S (Z.to_nat (Z.log2 (Z.abs n))) in
  if n <? 0 then 45 :: digits_aux fuel (- n) [] else digits_aux fuel n [].

(* ------------------------------------------------------------------ *)
(** * Configuration constants *)

Record config := {
  API_KEY : pystr;
  TELEGRAM_BOT_TOKEN : pystr;
  TELEGRAM_CHAT_ID : pystr;
  RATE_LIMIT_REQUESTS : Z;
  RATE_LIMIT_WINDOW : Z   (* seconds *)
}.

Definition MAX_MESSAGE_LENGTH : Z := 4096.
Definition MAX_SERVICE_LENGTH : Z := 100.
Definition MAX_EVENT_LENGTH : Z := 100.
Definition MAX_FIELD_LENGTH : Z := 1000.

(** [time()] is a float number of seconds; it is modelled as an integer
    number of microseconds, so a window of [w] seconds is [w * 10^6]. *)
Definition TICKS_PER_SECOND : Z := 1000000.

(* ------------------------------------------------------------------ *)
(** * Effects *)

Inductive level := INFO | WARNING | ERROR.

Record row := {
  row_id : Z;
  row_service : pystr;
  row_event : pystr;
  row_error : bool;
  row_message : pystr;
  row_created_at : pystr
}.

Inductive effect :=
| ELog (lvl : level) (msg : pystr)
| ELogTrace (msg : pystr)                (* logger.error(..., exc_info=True) *)
| EInsert (r : row)                      (* committed INSERT *)
| EPost (url chat_id text : pystr)       (* session.post to the Telegram API *)
| ESleep (seconds : Z).                  (* await asyncio.sleep *)

(* ------------------------------------------------------------------ *)
(** * Rate limiter: [rate_limit_store] and [check_rate_limit] *)

(** [defaultdict(list)]: a missing key reads as the empty list. *)
Definition rate_store := pystr -> list Z.

Definition empty_rate_store : rate_store := fun _ => [].

Definition store_set (s : rate_store) (k : pystr) (v : list Z) : rate_store :=
  fun k' => if pystr_eqb k' k then v else s k'.

(** The comprehension's condition [now - req_time < RATE_LIMIT_WINDOW]. *)
Definition in_window (window now req_time : Z) : bool :=
  now - req_time <? window * TICKS_PER_SECOND.

Definition check_rate_limit (cfg : config) (store : rate_store) (ip : pystr)
    (now : Z) : bool * rate_store * list effect :=
  let kept := filter (in_window (RATE_LIMIT_WINDOW cfg) now) (store ip) in
  let store1 := store_set store ip kept in
  if RATE_LIMIT_REQUESTS cfg <=? Z.of_nat (length kept) then
    (false, store1, [ELog WARNING (lit "Rate limit exceeded for IP: " ++ ip)])
  else
    (true, store_set store1 ip (kept ++ [now]), []).

(* ------------------------------------------------------------------ *)
(** * Notifier: [send_to_telegram] *)

(** What one attempt of the [try] block in the retry loop ends in. *)
Inductive attempt_outcome :=
| AStatus (status : Z) (text : pystr)    (* a response with this status *)
| AClientError (e : pystr)               (* aiohttp.ClientError raised *)
| AOtherError (e : pystr).               (* any other Exception raised *)

Fixpoint send_loop (cfg : config) (fuel : nat) (attempt max_retries : Z)
    (url text : pystr) (net : Z -> attempt_outcome) : bool * list effect :=
  match fuel with
  | O =>
      (false, [ELog ERROR (lit "Failed to send message to Telegram after "
                           ++ z_str max_retries ++ lit " attempts")])
  | S f =>
      let post := EPost url (TELEGRAM_CHAT_ID cfg) text in
      let backoff :=
        if attempt <? max_retries - 1 then [ESleep (2 ^ attempt)] else [] in
      match net attempt with
      | AStatus st body =>
          if st =? 200 then
            (true, [post; ELog INFO (lit "Message successfully sent to Telegram")])
          else
            let '(ok, eff) := send_loop cfg f (attempt + 1) max_retries url text net in
            (ok, post :: ELog ERROR (lit "Telegram API error (status " ++ z_str st
                                     ++ lit "): " ++ body) :: eff)
      | AClientError e =>
          let '(ok, eff) := send_loop cfg f (attempt + 1) max_retries url text net in
          (ok, post :: ELog ERROR (lit "Attempt " ++ z_str (attempt + 1) ++ lit "/"
                                   ++ z_str max_retries ++ lit " failed: " ++ e)
                    :: backoff ++ eff)
      | AOtherError e =>
          let '(ok, eff) := send_loop cfg f (attempt + 1) max_retries url text net in
          (ok, post :: ELog ERROR (lit "Unexpected error sending to Telegram: " ++ e)
                    :: backoff ++ eff)
      end
  end.

Definition truncate_message (message : pystr) : pystr * list effect :=
  if MAX_MESSAGE_LENGTH <? Z.of_nat (length message) then
    (firstn (Z.to_nat (MAX_MESSAGE_LENGTH - 3)) message ++ lit "...",
     [ELog WARNING (lit "Message truncated to " ++ z_str MAX_MESSAGE_LENGTH
                    ++ lit " characters")])
  else (message, []).

Definition telegram_url (cfg : config) : pystr :=
  lit "https://api.telegram.org/bot" ++ TELEGRAM_BOT_TOKEN cfg ++ lit "/sendMessage".

(** [for attempt in range(max_retries)]: [max_retries] iterations. *)
Definition send_to_telegram (cfg : config) (message : pystr) (max_retries : Z)
    (net : Z -> attempt_outcome) : bool * list effect :=
  let '(message', trunc_log) := truncate_message message in
  let '(ok, eff) :=
    send_loop cfg (Z.to_nat max_retries) 0 max_retries (telegram_url cfg) message' net in
  (ok, trunc_log ++ eff).

(* ------------------------------------------------------------------ *)
(** * Parsed JSON values, as [request.json()] returns them *)

#[warnings="-register-all"]
Inductive json :=
| JNull
| JBool (b : bool)
| JInt (n : Z)
| JFloat (mantissa exponent : Z)
| JStr (s : pystr)
| JList (l : list json)
| JObj (kvs : list (pystr * json)).   (* a dict: its keys are distinct *)

Fixpoint dict_get (d : list (pystr * json)) (k : pystr) : option json :=
  match d with
  | [] => None
  | (k', v) :: r => if pystr_eqb k' k then Some v else dict_get r k
  end.

(** [k in d] *)
Definition dict_has (d : list (pystr * json)) (k : pystr) : bool :=
  match dict_get d k with Some _ => true | None => false end.

(** [isinstance(v, str)] for [v = d.get(k)] *)
Definition is_str (v : option json) : bool :=
  match v with Some (JStr _) => true | _ => false end.

(** [isinstance(v, bool)] *)
Definition is_bool (v : option json) : bool :=
  match v with Some (JBool _) => true | _ => false end.

(** [len(d.get(k, ''))], called once [d.get(k)] is known to be a [str] *)
Definition str_len (v : option json) : Z :=
  match v with Some (JStr s) => Z.of_nat (length s) | _ => 0 end.

(* ------------------------------------------------------------------ *)
(** * Validator: [validate_notification_data] *)

Definition validate_notification_data (data : json) : bool * option pystr :=
  match data with
  | JObj d =>
    if negb (dict_has d (lit "service") && dict_has d (lit "message")) then
      (false, Some (lit "Missing required fields: 'service' and 'message'"))
    else if negb (is_str (dict_get d (lit "service"))) then
      (false, Some (lit "Field 'service' must be a string"))
    else if MAX_SERVICE_LENGTH <? str_len (dict_get d (lit "service")) then
      (false, Some (lit "Field 'service' exceeds maximum length of "
                    ++ z_str MAX_SERVICE_LENGTH))
    else if dict_has d (lit "event") &&
            negb (is_str (dict_get d (lit "event"))) then
      (false, Some (lit "Field 'event' must be a string"))
    else if dict_has d (lit "event") &&
            (MAX_EVENT_LENGTH <? str_len (dict_get d (lit "event"))) then
      (false, Some (lit "Field 'event' exceeds maximum length of "
                    ++ z_str MAX_EVENT_LENGTH))
    else if negb (is_str (dict_get d (lit "message"))) then
      (false, Some (lit "Field 'message' must be a string"))
    else if MAX_FIELD_LENGTH <? str_len (dict_get d (lit "message")) then
      (false, Some (lit "Field 'message' exceeds maximum length of "
                    ++ z_str MAX_FIELD_LENGTH))
    else if dict_has d (lit "error") && negb (is_bool (dict_get d (lit "error"))) then
      (false, Some (lit "Field 'error' must be a boolean"))
    else (true, None)
  | _ => (false, Some (lit "Data must be a JSON object"))
  end.

(* ------------------------------------------------------------------ *)
(** * Requests, responses, exceptions, environment *)

Record request := {
  remote : option pystr;                 (* request.remote *)
  headers : list (pystr * pystr);
  body : json + pystr                    (* request.json(): value, or the error it raises *)
}.

Record response := { status : Z; resp_body : json }.

Definition json_response (b : json) (st : Z) : response :=
  {| status := st; resp_body := b |}.

Definition error_body (msg : pystr) : json := JObj [(lit "error", JStr msg)].

Inductive exn :=
| ClientError (m : pystr)                (* aiohttp.ClientError *)
| SqliteError (m : pystr)                (* aiosqlite.Error *)
| TypeError (m : pystr)
| OtherError (m : pystr).

Definition exn_str (e : exn) : pystr :=
  match e with ClientError m | SqliteError m | TypeError m | OtherError m => m end.

(** The statements of the [INSERT] block, in order. *)
Inductive db_step := DbConnect | DbExecute | DbCommit | DbClose.

(** What the database layer can raise: an [aiosqlite.Error], or some other
    [Exception]. *)
Inductive db_exn := DbSqliteError (m : pystr) | DbOtherError (m : pystr).

Definition db_exn_to_exn (e : db_exn) : exn :=
  match e with DbSqliteError m => SqliteError m | DbOtherError m => OtherError m end.

Record utc_datetime := {
  year : Z; month : Z; day : Z; hour : Z; minute : Z; second : Z; microsecond : Z
}.

Record env := {
  clock : Z;                              (* time(), microseconds *)
  utc_now : utc_datetime;                 (* datetime.now(timezone.utc) *)
  db_fault : option (db_step * db_exn);   (* first failing statement, if any *)
  telegram : Z -> attempt_outcome         (* outcome of attempt i *)
}.

Record state := {
  rate_limit_store : rate_store;
  notifications : list row;               (* committed rows of the table *)
  next_row_id : Z                         (* AUTOINCREMENT counter *)
}.

Definition set_rate_store (st : state) (s : rate_store) : state :=
  {| rate_limit_store := s; notifications := notifications st;
     next_row_id := next_row_id st |}.

(* ------------------------------------------------------------------ *)
(** * Helpers of [webhook] *)

(** [request.remote or 'unknown'] *)
Definition client_ip (req : request) : pystr :=
  match remote req with
  | Some ((_ :: _) as ip) => ip
  | _ => lit "unknown"
  end.

Definition ascii_lower (c : Z) : Z := if (65 <=? c) && (c <=? 90) then c + 32 else c.

(** [request.headers.get(name, default)]: case-insensitive, first match. *)
Definition header_get (hs : list (pystr * pystr)) (name default : pystr) : pystr :=
  match find (fun kv => pystr_eqb (map ascii_lower (fst kv)) (map ascii_lower name)) hs with
  | Some (_, v) => v
  | None => default
  end.

Definition non_ascii (s : pystr) : bool := existsb (fun c => 128 <=? c) s.

(** [secrets.compare_digest] on two [str]: [TypeError] unless both are ASCII. *)
Definition compare_digest (a b : pystr) : exn + bool :=
  if non_ascii a || non_ascii b then
    inl (TypeError (lit "comparing strings with non-ASCII characters is not supported"))
  else inr (pystr_eqb a b).

Definition pad2 (n : Z) : pystr := if n <? 10 then 48 :: z_str n else z_str n.

(** [strftime("%Y-%m-%d %H:%M:%S")] *)
Definition strftime_created_at (t : utc_datetime) : pystr :=
  z_str (year t) ++ lit "-" ++ pad2 (month t) ++ lit "-" ++ pad2 (day t) ++ lit " "
  ++ pad2 (hour t) ++ lit ":" ++ pad2 (minute t) ++ lit ":" ++ pad2 (second t).

(** [data.get(k, default)] for a value known to be a [str] / a [bool]. *)
Definition get_str (data : json) (k default : pystr) : pystr :=
  match data with
  | JObj d => match dict_get d k with Some (JStr s) => s | _ => default end
  | _ => default
  end.

Definition get_bool (data : json) (k : pystr) (default : bool) : bool :=
  match data with
  | JObj d => match dict_get d k with Some (JBool b) => b | _ => default end
  | _ => default
  end.

(** The [try] block that saves the notification: connect, execute the
    [INSERT], commit, close.  A failure at [close] comes after the commit. *)
(** The row the [INSERT] writes: the bound parameters, and the id the
    store assigns. *)
Definition notification_row (st : state) (data : json) (now : utc_datetime) : row :=
  {| row_id := next_row_id st;
     row_service := get_str data (lit "service") [];
     row_event := get_str data (lit "event") [];
     row_error := get_bool data (lit "error") false;
     row_message := get_str data (lit "message") [];
     row_created_at := strftime_created_at now |}.

Definition save_notification (st : state) (data : json) (now : utc_datetime)
    (fault : option (db_step * db_exn)) : (exn + unit) * state * list effect :=
  let r := notification_row st data now in
  let committed := {| rate_limit_store := rate_limit_store st;
                      notifications := notifications st ++ [r];
                      next_row_id := next_row_id st + 1 |} in
  match fault with
  | None =>
      (inr tt, committed,
       [EInsert r; ELog INFO (lit "Notification saved from service: " ++ row_service r)])
  | Some (DbClose, e) => (inl (db_exn_to_exn e), committed, [EInsert r])
  | Some (_, e) => (inl (db_exn_to_exn e), st, [])
  end.

Definition INFO_MARK : pystr := [128226; 32].   (* U+1F4E2 and a space *)
Definition ERROR_MARK : pystr := [10060; 32].   (* U+274C and a space *)

Definition telegram_message (data : json) : pystr :=
  let text := get_str data (lit "service") [] ++ lit ": " ++ get_str data (lit "message") [] in
  if get_bool data (lit "error") false then ERROR_MARK ++ text else INFO_MARK ++ text.

(* ------------------------------------------------------------------ *)
(** * [webhook] *)

(** The result of the outer [try] block: a returned response, or an
    exception escaping it. *)
Inductive outcome := Returned (r : response) | Raised (e : exn).

Definition webhook_try (cfg : config) (st : state) (req : request) (en : env)
    : outcome * state * list effect :=
  let ip := client_ip req in
  let '(allowed, store', eff_rl) :=
    check_rate_limit cfg (rate_limit_store st) ip (clock en) in
  let st1 := set_rate_store st store' in
  if negb allowed then
    (Returned (json_response
                 (error_body (lit "Rate limit exceeded. Please try again later.")) 429),
     st1, eff_rl ++ [ELog WARNING (lit "Rate limit exceeded for IP: " ++ ip)])
  else
  let api_key := header_get (headers req) (lit "API-Key") [] in
  let unauthorized :=
    (Returned (json_response (error_body (lit "Unauthorized")) 401), st1,
     eff_rl ++ [ELog WARNING (lit "Unauthorized access attempt from IP: " ++ ip)]) in
  match api_key with
  | [] => unauthorized
  | _ :: _ =>
  match compare_digest api_key (API_KEY cfg) with
  | inl e => (Raised e, st1, eff_rl)
  | inr false => unauthorized
  | inr true =>
  match body req with
  | inr e =>
      (Returned (json_response (error_body (lit "Invalid JSON format")) 400), st1,
       eff_rl ++ [ELog ERROR (lit "Invalid JSON from " ++ ip ++ lit ": " ++ e)])
  | inl data =>
  let '(is_valid, error_message) := validate_notification_data data in
  if negb is_valid then
    let m := match error_message with Some m => m | None => [] end in
    (Returned (json_response (error_body m) 400), st1,
     eff_rl ++ [ELog ERROR (lit "Validation error from " ++ ip ++ lit ": " ++ m)])
  else
  match save_notification st1 data (utc_now en) (db_fault en) with
  | (inl (SqliteError m), st2, eff_db) =>
      (Returned (json_response (error_body (lit "Database error")) 500), st2,
       eff_rl ++ eff_db ++ [ELog ERROR (lit "Database error: " ++ m)])
  | (inl e, st2, eff_db) => (Raised e, st2, eff_rl ++ eff_db)
  | (inr _, st2, eff_db) =>
      let '(_, eff_tg) :=
        send_to_telegram cfg (telegram_message data) 3 (telegram en) in
      (Returned (json_response (JObj [(lit "success", JBool true)]) 200), st2,
       eff_rl ++ eff_db ++ eff_tg)
  end
  end
  end
  end.

Definition webhook (cfg : config) (st : state) (req : request) (en : env)
    : response * state * list effect :=
  match webhook_try cfg st req en with
  | (Returned r, st', eff) => (r, st', eff)
  | (Raised (ClientError m), st', eff) =>
      (json_response (error_body (lit "Service unavailable")) 503, st',
       eff ++ [ELog ERROR (lit "HTTP client error: " ++ m)])
  | (Raised e, st', eff) =>
      (json_response (error_body (lit "Internal Server Error")) 500, st',
       eff ++ [ELogTrace (lit "Unexpected error in webhook: " ++ exn_str e)])
  end.

(* ------------------------------------------------------------------ *)
(** * Traces of calls to [check_rate_limit] from one client *)

(** Successive calls for client [ip] at instants [ts]: the admission
    results, in order, and the final store. *)
Definition rate_step (cfg : config) (ip : pystr) (acc : list bool * rate_store)
    (now : Z) : list bool * rate_store :=
  let '(oks, s) := acc in
  let '(ok, s', _) := check_rate_limit cfg s ip now in
  (oks ++ [ok], s').

Definition run_rate (cfg : config) (s : rate_store) (ip : pystr) (ts : list Z)
    : list bool * rate_store :=
  fold_left (rate_step cfg ip) ts ([], s).

(** The clock does not go backwards along [ts]. *)
Fixpoint nondecreasing (ts : list Z) : bool :=
  match ts with
  | x :: ((y :: _) as r) => (x <=? y) && nondecreasing r
  | _ => true
  end.

(** Every window of [RATE_LIMIT_WINDOW] seconds ending at a request of
    [ts] holds at most [RATE_LIMIT_REQUESTS] requests, that one included. *)
Fixpoint quota_respected_from (cfg : config) (seen ts : list Z) : bool :=
  match ts with
  | [] => true
  | x :: r =>
      (Z.of_nat (length (filter (in_window (RATE_LIMIT_WINDOW cfg) x) seen)) + 1
         <=? RATE_LIMIT_REQUESTS cfg)
      && quota_respected_from cfg (seen ++ [x]) r
  end.

Definition quota_respected (cfg : config) (ts : list Z) : bool :=
  quota_respected_from cfg [] ts.

(* ------------------------------------------------------------------ *)
(** * The validator's rules as the specification lists them (section 4.2)

    Rules, checked in order, first failure wins: 1. a mapping; 2. has
    [service] and [message]; 3. [service] a string of at most 100
    characters; 4. [event], if present, a string of at most 100; 5.
    [message] a string of at most 1000; 6. [error], if present, a boolean.
    [validate_spec] returns the number of the first rule that fails. *)

Definition field_rules (d : list (pystr * json)) : list (nat * bool) :=
  [ (2%nat, dict_has d (lit "service") && dict_has d (lit "message"));
    (3%nat, is_str (dict_get d (lit "service"))
            && (str_len (dict_get d (lit "service")) <=? MAX_SERVICE_LENGTH));
    (4%nat, negb (dict_has d (lit "event"))
            || (is_str (dict_get d (lit "event"))
                && (str_len (dict_get d (lit "event")) <=? MAX_EVENT_LENGTH)));
    (5%nat, is_str (dict_get d (lit "message"))
            && (str_len (dict_get d (lit "message")) <=? MAX_FIELD_LENGTH));
    (6%nat, negb (dict_has d (lit "error")) || is_bool (dict_get d (lit "error"))) ].

Fixpoint first_failed_rule (rules : list (nat * bool)) : option nat :=
  match rules with
  | [] => None
  | (n, ok) :: r => if ok then first_failed_rule r else Some n
  end.

Definition validate_spec (data : json) : option nat :=
  match data with
  | JObj d => first_failed_rule (field_rules d)
  | _ => Some 1%nat
  end.

(** Which rule each message of [validate_notification_data] reports. *)
Definition message_rules : list (pystr * nat) :=
  [ (lit "Data must be a JSON object", 1%nat);
    (lit "Missing required fields: 'service' and 'message'", 2%nat);
    (lit "Field 'service' must be a string", 3%nat);
    (lit "Field 'service' exceeds maximum length of " ++ z_str MAX_SERVICE_LENGTH, 3%nat);
    (lit "Field 'event' must be a string", 4%nat);
    (lit "Field 'event' exceeds maximum length of " ++ z_str MAX_EVENT_LENGTH, 4%nat);
    (lit "Field 'message' must be a string", 5%nat);
    (lit "Field 'message' exceeds maximum length of " ++ z_str MAX_FIELD_LENGTH, 5%nat);
    (lit "Field 'error' must be a boolean", 6%nat) ].

Definition rule_of_message (m : pystr) : option nat :=
  match find (fun mr => pystr_eqb (fst mr) m) message_rules with
  | Some (_, n) => Some n
  | None => None
  end.

(* ------------------------------------------------------------------ *)
(** * Observations on effect traces *)


Definition is_post (e : effect) : bool :=
  match e with EPost _ _ _ => true | _ => false end.

Definition is_insert (e : effect) : bool :=
  match e with EInsert _ => true | _ => false end.

Definition count_posts (eff : list effect) : nat := length (filter is_post eff).

Definition count_inserts (eff : list effect) : nat := length (filter is_insert eff).

(** The delays slept, in order. *)
Fixpoint sleeps (eff : list effect) : list Z :=
  match eff with
  | [] => []
  | ESleep d :: r => d :: sleeps r
  | _ :: r => sleeps r
  end.

(** Every outbound post comes after a committed insert. *)
Fixpoint insert_before_post (inserted : bool) (eff : list effect) : bool :=
  match eff with
  | [] => true
  | EInsert _ :: r => insert_before_post true r
  | EPost _ _ _ :: r => inserted && insert_before_post inserted r
  | _ :: r => insert_before_post inserted r
  end.

(* ------------------------------------------------------------------ *)
(** * A concrete configuration and request (the end-to-end example of the
    specification: key [secret], a failing [billing] payment) *)

Definition example_cfg : config :=
  {| API_KEY := lit "secret"; TELEGRAM_BOT_TOKEN := lit "token";
     TELEGRAM_CHAT_ID := lit "42"; RATE_LIMIT_REQUESTS := 10;
     RATE_LIMIT_WINDOW := 60 |}.

Definition example_state (next_id : Z) : state :=
  {| rate_limit_store := empty_rate_store; notifications := [];
     next_row_id := next_id |}.

Definition example_data : json :=
  JObj [(lit "service", JStr (lit "billing"));
        (lit "message", JStr (lit "payment failed"));
        (lit "error", JBool true)].

Definition example_request (key : pystr) : request :=
  {| remote := Some (lit "10.0.0.1");
     headers := [(lit "Content-Type", lit "application/json"); (lit "API-Key", key)];
     body := inl example_data |}.

Definition example_env (fault : option (db_step * db_exn))
    (net : Z -> attempt_outcome) : env :=
  {| clock := 1700000000000000;
     utc_now := {| year := 2023; month := 11; day := 14; hour := 22; minute := 13;
                   second := 20; microsecond := 123456 |};
     db_fault := fault;
     telegram := net |}.

(* ------------------------------------------------------------------ *)
(** * Further observations *)

(** The instants of [ts] whose call was admitted, in order. *)
Definition admitted (ts : list Z) (oks : list bool) : list Z :=
  map fst (filter snd (combine ts oks)).

(** The length bounds of a stored row. *)
Definition row_within_limits (r : row) : bool :=
  (Z.of_nat (length (row_service r)) <=? MAX_SERVICE_LENGTH)
  && (Z.of_nat (length (row_event r)) <=? MAX_EVENT_LENGTH)
  && (Z.of_nat (length (row_message r)) <=? MAX_FIELD_LENGTH).

(** The keys the handler reads from the payload. *)
Definition payload_keys : list pystr :=
  [lit "service"; lit "event"; lit "message"; lit "error"].

(* ------------------------------------------------------------------ *)
(** * Schema setup: [create_table]

    The database schema as the [IF NOT EXISTS] statements see it: tables
    (with their columns) and indexes, in creation order.  SQLite compares
    these names without regard to ASCII case, and tables and indexes share
    one name space. *)

Inductive schema_object :=
| STable (name : pystr) (columns : list pystr)
| SIndex (name table column : pystr).

Definition object_name (o : schema_object) : pystr :=
  match o with STable n _ => n | SIndex n _ _ => n end.

Definition name_eqb (a b : pystr) : bool :=
  pystr_eqb (map ascii_lower a) (map ascii_lower b).

Definition find_object (schema : list schema_object) (n : pystr) : option schema_object :=
  find (fun o => name_eqb (object_name o) n) schema.

Inductive ddl :=
| CreateTable (name : pystr) (columns : list pystr)     (* CREATE TABLE IF NOT EXISTS *)
| CreateIndex (name table column : pystr).             (* CREATE INDEX IF NOT EXISTS *)

(** One statement: [inl] the [sqlite3.OperationalError] message, or the new
    schema.  An existing object of the same kind makes the statement do
    nothing; an object of the other kind with that name is an error, and
    an index needs an existing table and column. *)
Definition exec_ddl (schema : list schema_object) (stmt : ddl) : pystr + list schema_object :=
  match stmt with
  | CreateTable n cols =>
      match find_object schema n with
      | Some (STable _ _) => inr schema
      | Some (SIndex _ _ _) => inl (lit "there is already an index named " ++ n)
      | None => inr (schema ++ [STable n cols])
      end
  | CreateIndex n t c =>
      match find_object schema t with
      | Some (STable _ cols) =>
          match find_object schema n with
          | Some (STable _ _) => inl (lit "there is already a table named " ++ n)
          | Some (SIndex _ _ _) => inr schema
          | None =>
              if existsb (name_eqb c) cols then inr (schema ++ [SIndex n t c])
              else inl (lit "no such column: " ++ c)
          end
      | _ => inl (lit "no such table: " ++ t)
      end
  end.

Definition TABLE_COLUMNS : list pystr :=
  [lit "id"; lit "service"; lit "event"; lit "error"; lit "message"; lit "created_at"].

Definition create_table_statements : list ddl :=
  [CreateTable (lit "notifications") TABLE_COLUMNS;
   CreateIndex (lit "idx_service") (lit "notifications") (lit "service");
   CreateIndex (lit "idx_created_at") (lit "notifications") (lit "created_at");
   CreateIndex (lit "idx_error") (lit "notifications") (lit "error")].

(** The operations of [create_table] are numbered: 0 connect, 1 to 4 the
    four statements, 5 commit, 6 close; a fault names the first one that
    raises.  The statements are DDL, which [sqlite3] runs outside any
    implicit transaction, so each takes effect as it runs. *)
Definition fault_at (fault : option (nat * db_exn)) (i : nat) : option db_exn :=
  match fault with
  | Some (j, e) => if Nat.eqb i j then Some e else None
  | None => None
  end.

Fixpoint run_ddl (schema : list schema_object) (stmts : list ddl) (i : nat)
    (fault : option (nat * db_exn)) : option db_exn * list schema_object :=
  match stmts with
  | [] => (None, schema)
  | stmt :: rest =>
      match fault_at fault i with
      | Some e => (Some e, schema)
      | None =>
          match exec_ddl schema stmt with
          | inl msg => (Some (DbSqliteError msg), schema)
          | inr schema' => run_ddl schema' rest (S i) fault
          end
      end
  end.

(** [except aiosqlite.Error]: log and re-raise; any other exception
    propagates as it is. *)
Definition create_table_failed (e : db_exn) (schema : list schema_object)
    : (exn + unit) * list schema_object * list effect :=
  match e with
  | DbSqliteError m =>
      (inl (SqliteError m), schema,
       [ELog ERROR (lit "Database error during table creation: " ++ m)])
  | DbOtherError m => (inl (OtherError m), schema, [])
  end.

Definition create_table (schema : list schema_object) (fault : option (nat * db_exn))
    : (exn + unit) * list schema_object * list effect :=
  match fault_at fault 0 with
  | Some e => create_table_failed e schema
  | None =>
      match run_ddl schema create_table_statements 1 fault with
      | (Some e, s) => create_table_failed e s
      | (None, s) =>
          match fault_at fault 5 with
          | Some e => create_table_failed e s
          | None =>
              match fault_at fault 6 with
              | Some e => create_table_failed e s
              | None =>
                  (inr tt, s,
                   [ELog INFO (lit "Database table and indexes created successfully")])
              end
          end
      end
  end.

Definition is_table (o : option schema_object) : bool :=
  match o with Some (STable _ _) => true | _ => false end.

Definition is_index (o : option schema_object) : bool :=
  match o with Some (SIndex _ _ _) => true | _ => false end.

(** The object a statement creates is in place (and, for an index, its
    table). *)
Definition ddl_done (schema : list schema_object) (stmt : ddl) : bool :=
  match stmt with
  | CreateTable n _ => is_table (find_object schema n)
  | CreateIndex n t _ => is_index (find_object schema n) && is_table (find_object schema t)
  end.

Definition schema_ready (schema : list schema_object) : bool :=
  forallb (ddl_done schema) create_table_statements.

(** Some index of the schema is on column [c] of table [t]. *)
Definition has_index_on (schema : list schema_object) (t c : pystr) : bool :=
  existsb (fun o => match o with
                    | SIndex _ t' c' => name_eqb t' t && name_eqb c' c
                    | STable _ _ => false
                    end) schema.

(* ------------------------------------------------------------------ *)
(** * Startup: the [__main__] block *)

Record server_config := {
  SSL_CERT_PATH : pystr;
  HOST : pystr;
  PORT : Z
}.

(** The exceptions the startup block tells apart. *)
Inductive startup_exn :=
| SFileNotFoundError (m : pystr)
| SValueError (m : pystr)
| SOtherError (m : pystr).

Record startup_env := {
  loop_error : option startup_exn;          (* [asyncio.get_event_loop()] or starting
                                               [loop.run_until_complete] *)
  table_fault : option (nat * db_exn);      (* for [create_table] *)
  ssl_context_error : option startup_exn;   (* [ssl.create_default_context] *)
  cert_load : option startup_exn;           (* what [load_cert_chain] raises *)
  init_app_error : option startup_exn;      (* [loop.run_until_complete(init_app())] *)
  run_app_error : option startup_exn        (* what [web.run_app] raises *)
}.

(** [Serving ssl]: [web.run_app] ran, over TLS or plain HTTP. *)
Inductive startup := Serving (ssl : bool) | Exited (code : Z).

(** The two handlers of the outer [try]. *)
Definition startup_failed (e : startup_exn) : startup * list effect :=
  match e with
  | SValueError m => (Exited 1, [ELog ERROR (lit "Configuration error: " ++ m)])
  | SFileNotFoundError m | SOtherError m =>
      (Exited 1, [ELogTrace (lit "Failed to start server: " ++ m)])
  end.

Definition main (sc : server_config) (schema : list schema_object) (senv : startup_env)
    : startup * list schema_object * list effect :=
  match loop_error senv with
  | Some e => let '(r, eff') := startup_failed e in (r, schema, eff')
  | None =>
  match create_table schema (table_fault senv) with
  | (inl e, s1, eff) =>
      let '(r, eff') := startup_failed (SOtherError (exn_str e)) in (r, s1, eff ++ eff')
  | (inr _, s1, eff) =>
  match ssl_context_error senv with
  | Some e => let '(r, eff') := startup_failed e in (r, s1, eff ++ eff')
  | None =>
      let '(err, ssl, eff_ssl) :=
        match cert_load senv with
        | None =>
            (None, true, [ELog INFO (lit "SSL certificates loaded from " ++ SSL_CERT_PATH sc)])
        | Some (SFileNotFoundError m) =>
            (None, false, [ELog ERROR (lit "SSL certificate files not found: " ++ m);
                           ELog INFO (lit "Starting server without SSL (HTTP only)")])
        | Some e => (Some e, true, [])
        end in
      match err with
      | Some e => let '(r, eff') := startup_failed e in (r, s1, eff ++ eff_ssl ++ eff')
      | None =>
      match init_app_error senv with
      | Some e => let '(r, eff') := startup_failed e in (r, s1, eff ++ eff_ssl ++ eff')
      | None =>
          let eff_start :=
            [ELog INFO (lit "Starting server on " ++ HOST sc ++ lit ":" ++ z_str (PORT sc))] in
          match run_app_error senv with
          | Some e =>
              let '(r, eff') := startup_failed e in (r, s1, eff ++ eff_ssl ++ eff_start ++ eff')
          | None => (Serving ssl, s1, eff ++ eff_ssl ++ eff_start)
          end
      end
      end
  end
  end
  end.

(* ================================================================== *)
(** * Proofs *)

Lemma pystr_eqb_refl (a : pystr) : pystr_eqb a a = true.
Proof. unfold pystr_eqb; destruct (list_eq_dec Z.eq_dec a a); congruence. Qed.

Lemma pystr_eqb_neq (a b : pystr) : a <> b -> pystr_eqb a b = false.
Proof. unfold pystr_eqb; destruct (list_eq_dec Z.eq_dec a b); congruence. Qed.

Lemma store_set_same (s : rate_store) k v : store_set s k v k = v.
Proof. unfold store_set; now rewrite pystr_eqb_refl. Qed.

Lemma store_set_other (s : rate_store) k k' v : k' <> k -> store_set s k v k' = s k'.
Proof. intros H; unfold store_set; now rewrite pystr_eqb_neq. Qed.

(** Pruning at [t1] and then at a later [t2] is pruning at [t2]. *)
Lemma filter_in_window_later (w t1 t2 : Z) (l : list Z) :
  t1 <= t2 ->
  filter (in_window w t2) (filter (in_window w t1) l) = filter (in_window w t2) l.
Proof.
  intros Hle; induction l as [|x l IH]; simpl; [reflexivity|].
  destruct (in_window w t1 x) eqn:E1; simpl.
  - destruct (in_window w t2 x); congruence.
  - destruct (in_window w t2 x) eqn:E2; [|exact IH].
    unfold in_window in *; apply Z.ltb_lt in E2; apply Z.ltb_ge in E1; lia.
Qed.

Lemma nondecreasing_snoc (l : list Z) (x : Z) :
  nondecreasing (l ++ [x]) = true ->
  nondecreasing l = true /\ Forall (fun y => y <= x) l.
Proof.
  induction l as [|a l IH]; simpl; intros H; [split; auto|].
  destruct l as [|b l]; simpl in *.
  - apply andb_true_iff in H as [H _]; apply Z.leb_le in H; auto.
  - apply andb_true_iff in H as [Hab H]; apply Z.leb_le in Hab.
    destruct (IH H) as [Hl Hf]; split.
    + apply andb_true_iff; split; [apply Z.leb_le; exact Hab | exact Hl].
    + constructor; [inversion Hf; lia | exact Hf].
Qed.

Lemma quota_respected_from_snoc (cfg : config) (seen l : list Z) (x : Z) :
  quota_respected_from cfg seen (l ++ [x]) =
  quota_respected_from cfg seen l
  && (Z.of_nat (length (filter (in_window (RATE_LIMIT_WINDOW cfg) x) (seen ++ l))) + 1
        <=? RATE_LIMIT_REQUESTS cfg).
Proof.
  revert seen; induction l as [|a l IH]; intros seen; simpl.
  - rewrite app_nil_r; destruct (_ <=? _); reflexivity.
  - rewrite IH, <- app_assoc; simpl; now rewrite andb_assoc.
Qed.

Lemma run_rate_snoc (cfg : config) (s : rate_store) (ip : pystr) (l : list Z) (x : Z) :
  run_rate cfg s ip (l ++ [x]) = rate_step cfg ip (run_rate cfg s ip l) x.
Proof. unfold run_rate; now rewrite fold_left_app. Qed.

(** While every request respects the quota, every request is admitted and
    the pruned store agrees with the full history of requests. *)
Lemma run_rate_within_quota (cfg : config) (s : rate_store) (ip : pystr) (ts : list Z) :
  s ip = [] ->
  nondecreasing ts = true ->
  quota_respected cfg ts = true ->
  fst (run_rate cfg s ip ts) = repeat true (length ts) /\
  forall t, Forall (fun y => y <= t) ts ->
    filter (in_window (RATE_LIMIT_WINDOW cfg) t) (snd (run_rate cfg s ip ts) ip)
    = filter (in_window (RATE_LIMIT_WINDOW cfg) t) ts.
Proof.
  intros Hs; induction ts as [|x l IH] using rev_ind; intros Hnd Hq.
  - simpl; split; [reflexivity|]. intros t _; now rewrite Hs.
  - apply nondecreasing_snoc in Hnd as [Hnd Hlx].
    unfold quota_respected in Hq; rewrite quota_respected_from_snoc in Hq.
    apply andb_true_iff in Hq as [Hq Hcount]; apply Z.leb_le in Hcount.
    destruct (IH Hnd Hq) as [Hoks Hagree].
    rewrite run_rate_snoc.
    destruct (run_rate cfg s ip l) as [oks s1] eqn:Erun; simpl in Hoks, Hagree.
    set (w := RATE_LIMIT_WINDOW cfg) in *.
    assert (Hkept : filter (in_window w x) (s1 ip) = filter (in_window w x) l)
      by (apply Hagree; exact Hlx).
    unfold rate_step, check_rate_limit; fold w; rewrite Hkept.
    simpl in Hcount; fold w in Hcount.
    destruct (RATE_LIMIT_REQUESTS cfg <=? Z.of_nat (length (filter (in_window w x) l)))
      eqn:Ecmp; [apply Z.leb_le in Ecmp; lia|].
    simpl; split.
    + rewrite Hoks, length_app, repeat_app; reflexivity.
    + intros t Ht. rewrite store_set_same.
      apply Forall_app in Ht as [Htl Htx]; inversion Htx; subst.
      rewrite !filter_app, filter_in_window_later by assumption.
      f_equal; apply Hagree; exact Htl.
Qed.

(** C1: each call to [check_rate_limit] keeps exactly the client's
    instants younger than the window (an instant exactly
    [RATE_LIMIT_WINDOW] seconds old is dropped), rejects without appending
    when at least [RATE_LIMIT_REQUESTS] remain and otherwise appends the
    current instant and admits; no other client's entry changes.  Hence, on
    a clock that does not go backwards, a client every one of whose
    requests respects the quota is admitted every time, and a further
    request whose window already holds [RATE_LIMIT_REQUESTS] of them is
    rejected. *)
Theorem rate_limit_sliding_window (cfg : config) :
  (forall (s : rate_store) (ip : pystr) (now : Z),
     let '(ok, s', _) := check_rate_limit cfg s ip now in
     let kept := filter (in_window (RATE_LIMIT_WINDOW cfg) now) (s ip) in
     (forall t, In t kept <-> In t (s ip) /\ now - t < RATE_LIMIT_WINDOW cfg * TICKS_PER_SECOND)
     /\ (ok = false <-> RATE_LIMIT_REQUESTS cfg <= Z.of_nat (length kept))
     /\ s' ip = (if ok then kept ++ [now] else kept)
     /\ (forall ip', ip' <> ip -> s' ip' = s ip'))
  /\
  (forall (s : rate_store) (ip : pystr) (ts : list Z) (t : Z),
     s ip = [] ->
     nondecreasing (ts ++ [t]) = true ->
     quota_respected cfg ts = true ->
     RATE_LIMIT_REQUESTS cfg
       <= Z.of_nat (length (filter (in_window (RATE_LIMIT_WINDOW cfg) t) ts)) ->
     fst (run_rate cfg s ip (ts ++ [t])) = repeat true (length ts) ++ [false]).
Proof.
  split.
  - intros s ip now; unfold check_rate_limit.
    set (kept := filter _ (s ip)).
    assert (Hin : forall t, In t kept <->
                  In t (s ip) /\ now - t < RATE_LIMIT_WINDOW cfg * TICKS_PER_SECOND)
      by (intros t; unfold kept; rewrite filter_In; unfold in_window; now rewrite Z.ltb_lt).
    destruct (RATE_LIMIT_REQUESTS cfg <=? Z.of_nat (length kept)) eqn:E; simpl.
    + apply Z.leb_le in E.
      split; [exact Hin | split; [tauto | split]].
      * apply store_set_same.
      * intros ip' Hne; apply store_set_other; exact Hne.
    + apply Z.leb_gt in E.
      split; [exact Hin | split; [split; [discriminate | lia] | split]].
      * apply store_set_same.
      * intros ip' Hne; rewrite !store_set_other by exact Hne; reflexivity.
  - intros s ip ts t Hs Hnd Hq Hfull.
    apply nondecreasing_snoc in Hnd as [Hnd Hlt].
    destruct (run_rate_within_quota cfg s ip ts Hs Hnd Hq) as [Hoks Hagree].
    rewrite run_rate_snoc.
    destruct (run_rate cfg s ip ts) as [oks s1]; simpl in Hoks, Hagree.
    unfold rate_step, check_rate_limit; rewrite (Hagree t Hlt).
    apply Z.leb_le in Hfull; rewrite Hfull; simpl; now rewrite Hoks.
Qed.

Lemma rate_limit_sliding_window_witness :
  let cfg := {| API_KEY := lit "secret"; TELEGRAM_BOT_TOKEN := lit "token";
                TELEGRAM_CHAT_ID := lit "42"; RATE_LIMIT_REQUESTS := 2;
                RATE_LIMIT_WINDOW := 60 |} in
  fst (run_rate cfg empty_rate_store (lit "10.0.0.1")
         ([0; 30000000] ++ [59000000])) = [true; true; false].
Proof.
  intros cfg.
  apply (proj2 (rate_limit_sliding_window cfg) empty_rate_store (lit "10.0.0.1")
           [0; 30000000] 59000000); vm_compute; first [reflexivity | discriminate].
Defined.

Lemma validate_agrees_with_spec (data : json) :
  match validate_spec data, validate_notification_data data with
  | None, (true, None) => True
  | Some r, (false, Some m) => rule_of_message m = Some r
  | _, _ => False
  end.
Proof.
  destruct data as [| | | | | |d]; try (vm_compute; reflexivity).
  unfold validate_spec, validate_notification_data, field_rules.
  rewrite !Z.ltb_antisym.
  repeat match goal with
  | |- context [dict_has d ?k] => destruct (dict_has d k); simpl
  | |- context [is_str ?v] => destruct (is_str v); simpl
  | |- context [is_bool ?v] => destruct (is_bool v); simpl
  | |- context [str_len ?v <=? ?b] => destruct (str_len v <=? b); simpl
  end; first [exact I | vm_compute; reflexivity].
Qed.

(** C5: [validate_notification_data] is pure and agrees with the six rules
    of the specification checked in order, first failure winning: it
    accepts exactly when no rule fails and otherwise reports a message from
    which the first failed rule is recovered.  A 101-character [service]
    is rejected with the [service] length message; a payload without
    [service] is rejected with the missing-fields message. *)
Theorem validate_first_failure_wins :
  (forall data : json,
     (fst (validate_notification_data data) = true <-> validate_spec data = None)
     /\ (forall r, validate_spec data = Some r ->
           exists m, snd (validate_notification_data data) = Some m
                     /\ rule_of_message m = Some r))
  /\ validate_notification_data
       (JObj [(lit "service", JStr (repeat 120 101)); (lit "message", JStr (lit "ok"))])
     = (false, Some (lit "Field 'service' exceeds maximum length of 100"))
  /\ validate_spec
       (JObj [(lit "service", JStr (repeat 120 101)); (lit "message", JStr (lit "ok"))])
     = Some 3%nat
  /\ validate_notification_data (JObj [(lit "message", JStr (lit "ok"))])
     = (false, Some (lit "Missing required fields: 'service' and 'message'"))
  /\ validate_spec (JObj [(lit "message", JStr (lit "ok"))]) = Some 2%nat.
Proof.
  split; [|repeat split; vm_compute; reflexivity].
  intros data; pose proof (validate_agrees_with_spec data) as H.
  destruct (validate_spec data) as [r|], (validate_notification_data data) as [[|] [m|]];
    simpl in *; try contradiction.
  - split; [split; discriminate|].
    intros r' [= <-]; exists m; auto.
  - split; [tauto|intros r' Hr; discriminate].
Qed.

(** Every post of the retry loop carries the same url and text. *)
Lemma send_loop_posts (cfg : config) (fuel : nat) (attempt max_retries : Z)
    (url text : pystr) (net : Z -> attempt_outcome) u c t :
  In (EPost u c t) (snd (send_loop cfg fuel attempt max_retries url text net)) ->
  u = url /\ c = TELEGRAM_CHAT_ID cfg /\ t = text.
Proof.
  revert attempt; induction fuel as [|f IH]; intros attempt; simpl.
  - intros [H|[]]; discriminate.
  - destruct (net attempt) as [st b|e|e]; [destruct (st =? 200)|..];
      try destruct (send_loop cfg f (attempt + 1) max_retries url text net) as [ok eff] eqn:E;
      simpl; intros H.
    + destruct H as [H|[H|[]]]; [injection H; auto | discriminate].
    + destruct H as [H|[H|H]]; [injection H; auto | discriminate |].
      apply (IH (attempt + 1)); rewrite E; exact H.
    + destruct H as [H|[H|H]]; [injection H; auto | discriminate |].
      apply in_app_or in H as [H|H];
        [destruct (attempt <? max_retries - 1); simpl in H; intuition discriminate|].
      apply (IH (attempt + 1)); rewrite E; exact H.
    + destruct H as [H|[H|H]]; [injection H; auto | discriminate |].
      apply in_app_or in H as [H|H];
        [destruct (attempt <? max_retries - 1); simpl in H; intuition discriminate|].
      apply (IH (attempt + 1)); rewrite E; exact H.
Qed.

Lemma truncate_message_log (message : pystr) u c t :
  ~ In (EPost u c t) (snd (truncate_message message)).
Proof.
  unfold truncate_message; destruct (_ <? _); simpl; intuition discriminate.
Qed.



(** C7: a message longer than [MAX_MESSAGE_LENGTH] is sent, on every
    attempt, as its first [MAX_MESSAGE_LENGTH - 3] characters followed by
    ["..."], which is exactly [MAX_MESSAGE_LENGTH] characters long. *)
Theorem send_truncates_long_message (cfg : config) (message : pystr) (max_retries : Z)
    (net : Z -> attempt_outcome) :
  MAX_MESSAGE_LENGTH < Z.of_nat (length message) ->
  forall u c t,
    In (EPost u c t) (snd (send_to_telegram cfg message max_retries net)) ->
    t = firstn (Z.to_nat (MAX_MESSAGE_LENGTH - 3)) message ++ lit "..."
    /\ Z.of_nat (length t) = MAX_MESSAGE_LENGTH.
Proof.
  intros Hlong u c t Hin.
  unfold send_to_telegram in Hin.
  destruct (truncate_message message) as [message' trunc_log] eqn:Etr.
  destruct (send_loop cfg (Z.to_nat max_retries) 0 max_retries (telegram_url cfg) message' net)
    as [ok eff] eqn:Eloop; simpl in Hin.
  apply in_app_or in Hin as [Hin|Hin].
  - exfalso; apply (truncate_message_log message u c t); rewrite Etr; exact Hin.
  - pose proof (send_loop_posts cfg (Z.to_nat max_retries) 0 max_retries
                  (telegram_url cfg) message' net u c t) as Hp.
    rewrite Eloop in Hp; destruct (Hp Hin) as [_ [_ ->]].
    unfold truncate_message in Etr; apply Z.ltb_lt in Hlong; rewrite Hlong in Etr.
    assert (Hm : message' = firstn (Z.to_nat (MAX_MESSAGE_LENGTH - 3)) message ++ lit "...")
      by congruence.
    rewrite Hm; split; [reflexivity|].
    apply Z.ltb_lt in Hlong.
    rewrite length_app, length_firstn.
    change (length (lit "...")) with 3%nat.
    unfold MAX_MESSAGE_LENGTH in *; lia.
Qed.

Lemma send_truncates_long_message_witness :
  let cfg := {| API_KEY := lit "secret"; TELEGRAM_BOT_TOKEN := lit "token";
                TELEGRAM_CHAT_ID := lit "42"; RATE_LIMIT_REQUESTS := 10;
                RATE_LIMIT_WINDOW := 60 |} in
  let message := repeat 120 5000 in
  let eff := snd (send_to_telegram cfg message 3 (fun _ => AStatus 200 [])) in
  exists u c t, In (EPost u c t) eff
    /\ t = firstn 4093 message ++ lit "..." /\ Z.of_nat (length t) = 4096.
Proof.
  intros cfg message eff.
  exists (telegram_url cfg), (lit "42"), (firstn 4093 message ++ lit "...").
  assert (Hin : In (EPost (telegram_url cfg) (lit "42") (firstn 4093 message ++ lit "...")) eff)
    by (vm_compute; right; left; reflexivity).
  split; [exact Hin|].
  apply (send_truncates_long_message cfg message 3 (fun _ => AStatus 200 []) ltac:(vm_compute; reflexivity) (telegram_url cfg) (lit "42"));
  exact Hin.
Defined.

(** C6 (as the code stands): with two failures and then success, the
    notifier makes three attempts and returns [true]; when the failures
    are transport errors it sleeps 1 s then 2 s, but when they are
    non-200 responses it retries immediately, without any backoff. *)
Theorem send_status_failure_no_backoff (cfg : config) :
  let net_status := fun i => if i <? 2 then AStatus 500 (lit "Bad Gateway")
                             else AStatus 200 (lit "{}") in
  let net_transport := fun i => if i <? 2 then AClientError (lit "Cannot connect")
                                else AStatus 200 (lit "{}") in
  let r1 := send_to_telegram cfg (lit "alert") 3 net_status in
  let r2 := send_to_telegram cfg (lit "alert") 3 net_transport in
  fst r1 = true /\ count_posts (snd r1) = 3%nat /\ sleeps (snd r1) = []
  /\ fst r2 = true /\ count_posts (snd r2) = 3%nat /\ sleeps (snd r2) = [1; 2].
Proof. repeat split; reflexivity. Qed.

Lemma compare_digest_refl (a : pystr) : non_ascii a = false -> compare_digest a a = inr true.
Proof. intros H; unfold compare_digest; rewrite H; simpl; now rewrite pystr_eqb_refl. Qed.




(** Case analysis along every path of [webhook_try]: rate check, empty
    key, key comparison, JSON parsing, validation, the database block. *)
Ltac webhook_paths :=
  unfold webhook, webhook_try;
  let allowed := fresh "allowed" in
  let store' := fresh "store'" in
  let eff_rl := fresh "eff_rl" in
  let Erl := fresh "Erl" in
  destruct (check_rate_limit _ _ _ _) as [[allowed store'] eff_rl] eqn:Erl;
  destruct allowed; simpl;
  [ let k := fresh "k" in let ks := fresh "ks" in let Ekey := fresh "Ekey" in
    destruct (header_get _ _ _) as [|k ks] eqn:Ekey; simpl;
    [ | unfold compare_digest;
        let Easc := fresh "Easc" in let Eeq := fresh "Eeq" in
        destruct (non_ascii (_ :: _) || non_ascii _) eqn:Easc; simpl;
        [ | destruct (pystr_eqb (_ :: _) _) eqn:Eeq; simpl;
            [ let data := fresh "data" in let perr := fresh "perr" in
              let Ebody := fresh "Ebody" in
              destruct (body _) as [data|perr] eqn:Ebody; simpl;
              [ let vmsg := fresh "vmsg" in let Ev := fresh "Ev" in
                destruct (validate_notification_data data) as [[|] vmsg] eqn:Ev; simpl;
                [ unfold save_notification;
                  let m := fresh "m" in let Edb := fresh "Edb" in
                  destruct (db_fault _) as [[[] [m|m]]|] eqn:Edb; simpl;
                  try (let tok := fresh "tok" in let eff_tg := fresh "eff_tg" in
                       let Etg := fresh "Etg" in
                       destruct (send_to_telegram _ _ _ _) as [tok eff_tg] eqn:Etg; simpl)
                | ]
              | ]
            | ] ] ]
  | ].

(** No [aiohttp.ClientError] escapes the body of [webhook]: the only
    exceptions that can reach the outer handler are the [TypeError] of
    [compare_digest] and non-sqlite failures of the database block. *)
Lemma webhook_try_no_client_error (cfg : config) (st : state) (req : request) (en : env) :
  match fst (fst (webhook_try cfg st req en)) with
  | Raised (ClientError _) => False
  | _ => True
  end.
Proof. unfold webhook_try; webhook_paths; exact I. Qed.

(** C8: [webhook] always answers.  Whatever the body of its [try] returns is
    the response; any exception escaping the body becomes the generic 500
    [{"error": "Internal Server Error"}], carrying nothing of the
    exception, while the exception text is logged with its traceback. *)
Theorem webhook_catches_unexpected (cfg : config) (st : state) (req : request) (en : env) :
  match webhook_try cfg st req en with
  | (Returned r, st', eff) => webhook cfg st req en = (r, st', eff)
  | (Raised e, st', eff) =>
      webhook cfg st req en =
      (json_response (error_body (lit "Internal Server Error")) 500, st',
       eff ++ [ELogTrace (lit "Unexpected error in webhook: " ++ exn_str e)])
  end.
Proof.
  pose proof (webhook_try_no_client_error cfg st req en) as H.
  unfold webhook.
  destruct (webhook_try cfg st req en) as [[[r|e] st'] eff]; simpl in H; [reflexivity|].
  destruct e; [contradiction|reflexivity..].
Qed.

Lemma filter_length_le (f : Z -> bool) (l : list Z) : (length (filter f l) <= length l)%nat.
Proof. induction l as [|a l IH]; simpl; [lia|destruct (f a); simpl; lia]. Qed.

Lemma filter_keeps_all (f : Z -> bool) (l : list Z) :
  (length l <= length (filter f l))%nat -> filter f l = l.
Proof.
  induction l as [|a l IH]; simpl; [reflexivity|].
  pose proof (filter_length_le f l).
  destruct (f a); simpl; intros H'; [f_equal; apply IH; lia|lia].
Qed.

(** Every entry of a store reached from the empty one holds at most
    [RATE_LIMIT_REQUESTS] instants (none when that is not positive). *)
Definition rate_store_bounded (cfg : config) (s : rate_store) : Prop :=
  forall k, Z.of_nat (length (s k)) <= Z.max 0 (RATE_LIMIT_REQUESTS cfg).

Lemma check_rate_limit_bounded (cfg : config) (s : rate_store) (ip : pystr) (now : Z) :
  rate_store_bounded cfg s ->
  rate_store_bounded cfg (snd (fst (check_rate_limit cfg s ip now))).
Proof.
  intros Hb k; unfold check_rate_limit.
  set (kept := filter _ (s ip)).
  pose proof (filter_length_le (in_window (RATE_LIMIT_WINDOW cfg) now) (s ip)) as Hle.
  specialize (Hb k) as Hk; specialize (Hb ip).
  destruct (RATE_LIMIT_REQUESTS cfg <=? Z.of_nat (length kept)) eqn:E; simpl;
    (destruct (list_eq_dec Z.eq_dec k ip) as [->|Hne];
      [rewrite store_set_same | rewrite ?store_set_other by exact Hne; exact Hk]).
  - fold kept in Hle; lia.
  - apply Z.leb_gt in E; rewrite length_app; simpl; lia.
Qed.

Lemma check_rate_limit_admit (cfg : config) (s : rate_store) (ip : pystr) (now : Z) :
  fst (fst (check_rate_limit cfg s ip now)) = true ->
  snd (fst (check_rate_limit cfg s ip now)) ip
  = filter (in_window (RATE_LIMIT_WINDOW cfg) now) (s ip) ++ [now].
Proof.
  unfold check_rate_limit; destruct (_ <=? _); simpl; [discriminate|].
  intros _; apply store_set_same.
Qed.

Lemma check_rate_limit_reject (cfg : config) (s : rate_store) (ip : pystr) (now : Z) :
  fst (fst (check_rate_limit cfg s ip now)) = false ->
  Z.of_nat (length (s ip)) <= Z.max 0 (RATE_LIMIT_REQUESTS cfg) ->
  forall k, snd (fst (check_rate_limit cfg s ip now)) k = s k.
Proof.
  unfold check_rate_limit.
  pose proof (filter_length_le (in_window (RATE_LIMIT_WINDOW cfg) now) (s ip)) as Hle.
  destruct (RATE_LIMIT_REQUESTS cfg <=? _) eqn:E; simpl; [|discriminate].
  intros _ Hb k; apply Z.leb_le in E.
  destruct (list_eq_dec Z.eq_dec k ip) as [->|Hne];
    [rewrite store_set_same | apply store_set_other; exact Hne].
  apply filter_keeps_all; lia.
Qed.

(** The handler leaves the rate store as [check_rate_limit] left it, and it
    answers 429 exactly when that check rejected. *)
Lemma webhook_rate_store (cfg : config) (st : state) (req : request) (en : env) :
  let c := check_rate_limit cfg (rate_limit_store st) (client_ip req) (clock en) in
  let w := webhook cfg st req en in
  rate_limit_store (snd (fst w)) = snd (fst c)
  /\ (status (fst (fst w)) = 429 <-> fst (fst c) = false).
Proof.
  simpl; webhook_paths; split; (reflexivity || (split; (reflexivity || discriminate))).
Qed.

(** C10: the rate check runs first and its store update is kept whatever
    follows: every request that passes it has its instant appended (so it
    consumes quota even when then answered 401, 400 or 500), the handler
    answers 429 exactly for the requests it rejects, and on a store reached
    from the empty one (entries never exceed the quota, an invariant of
    [check_rate_limit]) a rejected request leaves the store unchanged. *)
Theorem webhook_rate_quota_consumed (cfg : config) :
  (forall s ip now, rate_store_bounded cfg s ->
     rate_store_bounded cfg (snd (fst (check_rate_limit cfg s ip now))))
  /\
  (forall (st : state) (req : request) (en : env),
     let ip := client_ip req in
     let '(ok, s', _) := check_rate_limit cfg (rate_limit_store st) ip (clock en) in
     let '(resp, st', _) := webhook cfg st req en in
     rate_limit_store st' = s'
     /\ (status resp = 429 <-> ok = false)
     /\ (ok = true ->
         s' ip = filter (in_window (RATE_LIMIT_WINDOW cfg) (clock en)) (rate_limit_store st ip)
                 ++ [clock en])
     /\ (ok = false -> rate_store_bounded cfg (rate_limit_store st) ->
         forall k, s' k = rate_limit_store st k)).
Proof.
  split; [exact (check_rate_limit_bounded cfg)|].
  intros st req en ip.
  pose proof (webhook_rate_store cfg st req en) as [Hs H429]; simpl in Hs, H429.
  pose proof (check_rate_limit_admit cfg (rate_limit_store st) ip (clock en)) as Hadm.
  pose proof (check_rate_limit_reject cfg (rate_limit_store st) ip (clock en)) as Hrej.
  fold ip in Hs, H429.
  destruct (check_rate_limit cfg (rate_limit_store st) ip (clock en)) as [[ok s'] eff];
    simpl in *.
  destruct (webhook cfg st req en) as [[resp st'] eff']; simpl in *.
  split; [exact Hs|split; [exact H429|split]].
  - exact Hadm.
  - intros Hok Hb; apply Hrej; [exact Hok|apply Hb].
Qed.

Lemma webhook_rate_quota_consumed_witness :
  let cfg := {| API_KEY := lit "secret"; TELEGRAM_BOT_TOKEN := lit "token";
                TELEGRAM_CHAT_ID := lit "42"; RATE_LIMIT_REQUESTS := 1;
                RATE_LIMIT_WINDOW := 60 |} in
  rate_store_bounded cfg empty_rate_store
  /\ rate_store_bounded cfg
       (snd (fst (check_rate_limit cfg empty_rate_store (lit "10.0.0.1") 0))).
Proof.
  intros cfg.
  assert (H0 : rate_store_bounded cfg empty_rate_store)
    by (intros k; vm_compute; discriminate).
  split; [exact H0|].
  apply (proj1 (webhook_rate_quota_consumed cfg)); exact H0.
Defined.











Lemma ibp_true (l : list effect) : insert_before_post true l = true.
Proof. induction l as [|[] l IH]; simpl; auto. Qed.

Lemma ibp_no_post (b : bool) (l : list effect) :
  existsb is_post l = false -> insert_before_post b l = true.
Proof.
  revert b; induction l as [|[] l IH]; intros b; simpl; intros H;
    try discriminate; auto using ibp_true.
Qed.

Lemma ibp_app (b : bool) (l1 l2 : list effect) :
  existsb is_post l1 = false ->
  insert_before_post b (l1 ++ l2) = insert_before_post (b || existsb is_insert l1) l2.
Proof.
  revert b; induction l1 as [|[] l1 IH]; intros b; simpl; intros H;
    try discriminate; rewrite ?orb_false_r; auto.
  rewrite IH by exact H; now rewrite orb_true_r, orb_true_l.
Qed.

Lemma check_rate_limit_quiet (cfg : config) (s : rate_store) (ip : pystr) (now : Z) :
  existsb is_post (snd (check_rate_limit cfg s ip now)) = false
  /\ existsb is_insert (snd (check_rate_limit cfg s ip now)) = false.
Proof. unfold check_rate_limit; destruct (_ <=? _); split; reflexivity. Qed.

Lemma webhook_insert_before_post (cfg : config) (st : state) (req : request) (en : env) :
  insert_before_post false (snd (webhook cfg st req en)) = true.
Proof.
  pose proof (check_rate_limit_quiet cfg (rate_limit_store st) (client_ip req) (clock en)) as Hq.
  webhook_paths; simpl in Hq; destruct Hq as [Hp Hi];
    first [ apply ibp_no_post; rewrite ?existsb_app, ?Hp; reflexivity
          | rewrite ibp_app by exact Hp; simpl; apply ibp_true ].
Qed.

Lemma existsb_false_filter {A} (f : A -> bool) (l : list A) :
  existsb f l = false -> filter f l = [].
Proof.
  induction l as [|a l IH]; simpl; [reflexivity|].
  destruct (f a); simpl; [discriminate|exact IH].
Qed.

(** C3: every outbound post of a request comes after its record was
    committed; a request that reaches the database block and meets an
    [aiosqlite.Error] there is answered 500 [{"error": "Database error"}]
    and no notification is sent. *)
Theorem webhook_persist_before_notify :
  (forall cfg st req en, insert_before_post false (snd (webhook cfg st req en)) = true)
  /\
  (forall cfg st req en data step m,
     fst (fst (check_rate_limit cfg (rate_limit_store st) (client_ip req) (clock en))) = true ->
     API_KEY cfg <> [] -> non_ascii (API_KEY cfg) = false ->
     header_get (headers req) (lit "API-Key") [] = API_KEY cfg ->
     body req = inl data ->
     fst (validate_notification_data data) = true ->
     db_fault en = Some (step, DbSqliteError m) ->
     let '(resp, _, eff) := webhook cfg st req en in
     resp = json_response (error_body (lit "Database error")) 500
     /\ count_posts eff = 0%nat).
Proof.
  split; [exact webhook_insert_before_post|].
  intros cfg st req en data step m Hrate Hne Hascii Hkey Hbody Hvalid Hdb.
  pose proof (check_rate_limit_quiet cfg (rate_limit_store st) (client_ip req) (clock en)) as Hq.
  unfold webhook, webhook_try.
  destruct (check_rate_limit cfg (rate_limit_store st) (client_ip req) (clock en))
    as [[allowed store'] eff_rl] eqn:Erl; simpl in Hrate, Hq; subst allowed.
  destruct Hq as [Hp _].
  rewrite Hkey, (compare_digest_refl _ Hascii), Hbody.
  destruct (API_KEY cfg) as [|k ks] eqn:Ek; [congruence|].
  destruct (validate_notification_data data) as [valid msg] eqn:Ev;
    simpl in Hvalid; subst valid.
  unfold save_notification; rewrite Hdb.
  unfold count_posts.
  destruct step; simpl; (split; [reflexivity|]);
    rewrite !filter_app; simpl;
    rewrite (existsb_false_filter _ _ Hp); reflexivity.
Qed.

Lemma webhook_persist_before_notify_witness :
  let en := example_env (Some (DbCommit, DbSqliteError (lit "disk I/O error")))
                        (fun _ => AStatus 200 []) in
  let '(resp, _, eff) := webhook example_cfg (example_state 1) (example_request (lit "secret")) en in
  resp = json_response (error_body (lit "Database error")) 500
  /\ count_posts eff = 0%nat.
Proof.
  intros en.
  apply (proj2 webhook_persist_before_notify example_cfg (example_state 1)
           (example_request (lit "secret")) en example_data DbCommit (lit "disk I/O error"));
    vm_compute; first [reflexivity | discriminate].
Defined.

Lemma pystr_eqb_eq (a b : pystr) : pystr_eqb a b = true -> a = b.
Proof. unfold pystr_eqb; destruct (list_eq_dec Z.eq_dec a b); congruence. Qed.

(** C4 (as the code stands): a request whose [API-Key] header is missing
    or differs from the configured key never adds a record and never posts
    to Telegram.  When it passed the rate check and both its key and the
    configured key are ASCII (the only strings [compare_digest] compares),
    it is answered 401 [{"error": "Unauthorized"}]; when the rate check
    rejected it, it is answered 429 before its key is looked at. *)
Theorem webhook_bad_key_rejected :
  forall cfg st req en,
    header_get (headers req) (lit "API-Key") [] <> API_KEY cfg ->
    let '(resp, st', eff) := webhook cfg st req en in
    notifications st' = notifications st
    /\ count_inserts eff = 0%nat
    /\ count_posts eff = 0%nat
    /\ (fst (fst (check_rate_limit cfg (rate_limit_store st) (client_ip req) (clock en))) = true ->
        non_ascii (API_KEY cfg) = false ->
        non_ascii (header_get (headers req) (lit "API-Key") []) = false ->
        resp = json_response (error_body (lit "Unauthorized")) 401)
    /\ (fst (fst (check_rate_limit cfg (rate_limit_store st) (client_ip req) (clock en))) = false ->
        resp = json_response
                 (error_body (lit "Rate limit exceeded. Please try again later.")) 429).
Proof.
  intros cfg st req en Hneq.
  pose proof (check_rate_limit_quiet cfg (rate_limit_store st) (client_ip req) (clock en)) as Hq.
  webhook_paths; simpl in Hq; destruct Hq as [Hp Hi];
    try (exfalso; apply Hneq, pystr_eqb_eq; assumption);
    unfold count_inserts, count_posts; rewrite ?filter_app;
    rewrite ?(existsb_false_filter _ _ Hp), ?(existsb_false_filter _ _ Hi);
    (split; [reflexivity|split; [reflexivity|split; [reflexivity|split]]]);
    intros; try discriminate; try reflexivity.
  unfold non_ascii in *; simpl in *.
  rewrite H0, orb_false_r, H1 in Easc; discriminate.
Qed.

Lemma webhook_bad_key_rejected_witness :
  let '(resp, st', eff) :=
    webhook example_cfg (example_state 1) (example_request (lit "hunter2"))
      (example_env None (fun _ => AStatus 200 [])) in
  notifications st' = notifications (example_state 1)
  /\ count_inserts eff = 0%nat
  /\ count_posts eff = 0%nat
  /\ (fst (fst (check_rate_limit example_cfg empty_rate_store (lit "10.0.0.1")
                 1700000000000000)) = true ->
      non_ascii (API_KEY example_cfg) = false ->
      non_ascii (lit "hunter2") = false ->
      resp = json_response (error_body (lit "Unauthorized")) 401)
  /\ (fst (fst (check_rate_limit example_cfg empty_rate_store (lit "10.0.0.1")
                 1700000000000000)) = false ->
      resp = json_response
               (error_body (lit "Rate limit exceeded. Please try again later.")) 429).
Proof.
  apply (webhook_bad_key_rejected example_cfg (example_state 1)
           (example_request (lit "hunter2")) (example_env None (fun _ => AStatus 200 [])));
    vm_compute; first [reflexivity | discriminate].
Defined.

(** C4 fails as stated: a client over its rate quota that sends a wrong key
    is answered 429, not 401 (the rate check comes first). *)
Lemma webhook_bad_key_rate_limited :
  let cfg := {| API_KEY := lit "secret"; TELEGRAM_BOT_TOKEN := lit "token";
                TELEGRAM_CHAT_ID := lit "42"; RATE_LIMIT_REQUESTS := 1;
                RATE_LIMIT_WINDOW := 60 |} in
  let st := {| rate_limit_store := store_set empty_rate_store (lit "10.0.0.1")
                                     [1700000000000000 - 1000000];
               notifications := []; next_row_id := 1 |} in
  let '(resp, _, _) :=
    webhook cfg st (example_request (lit "hunter2")) (example_env None (fun _ => AStatus 200 [])) in
  resp = json_response (error_body (lit "Rate limit exceeded. Please try again later.")) 429.
Proof. vm_compute; reflexivity. Qed.

(* ================================================================== *)
(** * Further properties of the code *)

Lemma run_rate_length (cfg : config) (s : rate_store) (ip : pystr) (ts : list Z) :
  length (fst (run_rate cfg s ip ts)) = length ts.
Proof.
  induction ts as [|x l IH] using rev_ind; [reflexivity|].
  rewrite run_rate_snoc; destruct (run_rate cfg s ip l) as [oks s1]; simpl in *.
  unfold rate_step; destruct (check_rate_limit cfg s1 ip x) as [[ok s'] e]; simpl.
  rewrite !length_app, IH; reflexivity.
Qed.

Lemma combine_snoc {A B} (l : list A) (m : list B) (x : A) (y : B) :
  length l = length m -> combine (l ++ [x]) (m ++ [y]) = combine l m ++ [(x, y)].
Proof.
  revert m; induction l as [|a l IH]; intros [|b m] H; simpl in *; try discriminate;
    [reflexivity|].
  f_equal; apply IH; lia.
Qed.

Lemma admitted_snoc (l : list Z) (oks : list bool) (x : Z) (b : bool) :
  length l = length oks ->
  admitted (l ++ [x]) (oks ++ [b]) = admitted l oks ++ (if b then [x] else []).
Proof.
  intros H; unfold admitted; rewrite combine_snoc by exact H.
  rewrite filter_app, map_app; destruct b; reflexivity.
Qed.

(** Whatever the outcomes, the store pruned at a later instant holds
    exactly the admitted instants of the window. *)
Lemma run_rate_agrees_admitted (cfg : config) (s : rate_store) (ip : pystr) (ts : list Z) :
  s ip = [] ->
  nondecreasing ts = true ->
  forall t, Forall (fun y => y <= t) ts ->
    filter (in_window (RATE_LIMIT_WINDOW cfg) t) (snd (run_rate cfg s ip ts) ip)
    = filter (in_window (RATE_LIMIT_WINDOW cfg) t) (admitted ts (fst (run_rate cfg s ip ts))).
Proof.
  intros Hs; induction ts as [|x l IH] using rev_ind; intros Hnd t Ht.
  - simpl; now rewrite Hs.
  - apply nondecreasing_snoc in Hnd as [Hnd Hlx].
    apply Forall_app in Ht as [Htl Htx]; inversion Htx; subst.
    pose proof (run_rate_length cfg s ip l) as Hlen.
    rewrite run_rate_snoc.
    destruct (run_rate cfg s ip l) as [oks s1] eqn:Erun; simpl in IH, Hlen.
    set (w := RATE_LIMIT_WINDOW cfg) in *.
    unfold rate_step, check_rate_limit; fold w.
    destruct (RATE_LIMIT_REQUESTS cfg <=? _) eqn:E; simpl;
      rewrite admitted_snoc by lia; rewrite store_set_same.
    + rewrite app_nil_r, filter_in_window_later by assumption.
      apply IH; [exact Hnd|exact Htl].
    + rewrite !filter_app, filter_in_window_later by assumption.
      f_equal; apply IH; [exact Hnd|exact Htl].
Qed.

Lemma check_rate_limit_bounded_at (cfg : config) (s : rate_store) (ip : pystr) (now : Z) :
  Z.of_nat (length (s ip)) <= Z.max 0 (RATE_LIMIT_REQUESTS cfg) ->
  Z.of_nat (length (snd (fst (check_rate_limit cfg s ip now)) ip))
  <= Z.max 0 (RATE_LIMIT_REQUESTS cfg).
Proof.
  intros Hb; unfold check_rate_limit.
  pose proof (filter_length_le (in_window (RATE_LIMIT_WINDOW cfg) now) (s ip)) as Hle.
  destruct (RATE_LIMIT_REQUESTS cfg <=? _) eqn:E; simpl; rewrite store_set_same.
  - lia.
  - apply Z.leb_gt in E; rewrite length_app; simpl; lia.
Qed.

Lemma run_rate_bounded (cfg : config) (s : rate_store) (ip : pystr) (ts : list Z) :
  s ip = [] ->
  Z.of_nat (length (snd (run_rate cfg s ip ts) ip)) <= Z.max 0 (RATE_LIMIT_REQUESTS cfg).
Proof.
  intros Hs; induction ts as [|x l IH] using rev_ind.
  - simpl; rewrite Hs; simpl; lia.
  - rewrite run_rate_snoc; destruct (run_rate cfg s ip l) as [oks s1]; simpl in *.
    unfold rate_step.
    pose proof (check_rate_limit_bounded_at cfg s1 ip x IH) as H.
    destruct (check_rate_limit cfg s1 ip x) as [[ok s'] e]; exact H.
Qed.

(** Extra (rate limiter safety): on a clock that does not go backwards, a
    client never has more than [RATE_LIMIT_REQUESTS] admitted requests in
    a window of [RATE_LIMIT_WINDOW] seconds, whatever it sends. *)
Theorem rate_limit_never_exceeds_quota (cfg : config) (s : rate_store) (ip : pystr)
    (ts : list Z) (t : Z) :
  s ip = [] ->
  nondecreasing ts = true ->
  Forall (fun y => y <= t) ts ->
  Z.of_nat (length (filter (in_window (RATE_LIMIT_WINDOW cfg) t)
                      (admitted ts (fst (run_rate cfg s ip ts)))))
  <= Z.max 0 (RATE_LIMIT_REQUESTS cfg).
Proof.
  intros Hs Hnd Ht.
  rewrite <- (run_rate_agrees_admitted cfg s ip ts Hs Hnd t Ht).
  pose proof (run_rate_bounded cfg s ip ts Hs).
  pose proof (filter_length_le (in_window (RATE_LIMIT_WINDOW cfg) t)
                (snd (run_rate cfg s ip ts) ip)).
  lia.
Qed.

Lemma rate_limit_never_exceeds_quota_witness :
  let cfg := {| API_KEY := lit "secret"; TELEGRAM_BOT_TOKEN := lit "token";
                TELEGRAM_CHAT_ID := lit "42"; RATE_LIMIT_REQUESTS := 2;
                RATE_LIMIT_WINDOW := 60 |} in
  let ts := [0; 1000000; 2000000; 3000000; 61000000] in
  Z.of_nat (length (filter (in_window 60 61000000)
                      (admitted ts (fst (run_rate cfg empty_rate_store (lit "10.0.0.1") ts)))))
  <= 2.
Proof.
  intros cfg ts.
  apply (rate_limit_never_exceeds_quota cfg empty_rate_store (lit "10.0.0.1") ts 61000000);
    [reflexivity | reflexivity | repeat constructor; lia].
Defined.

Lemma sleeps_app (l1 l2 : list effect) : sleeps (l1 ++ l2) = sleeps l1 ++ sleeps l2.
Proof. induction l1 as [|[] l1 IH]; simpl; rewrite ?IH; reflexivity. Qed.

Lemma count_posts_app (l1 l2 : list effect) :
  count_posts (l1 ++ l2) = (count_posts l1 + count_posts l2)%nat.
Proof. unfold count_posts; now rewrite filter_app, length_app. Qed.

Lemma backoff_sorted (a : Z) (l : list Z) :
  0 <= a ->
  (forall d, In d l -> exists i, a + 1 <= i /\ d = 2 ^ i) ->
  Sorted Z.lt l -> Sorted Z.lt (2 ^ a :: l).
Proof.
  intros Ha Hl Hs; constructor; [exact Hs|].
  destruct l as [|y l]; constructor.
  destruct (Hl y (or_introl eq_refl)) as [i [Hi ->]].
  apply Z.pow_lt_mono_r; lia.
Qed.

(** The backoff delays of the retry loop: [2 ** attempt] for an attempt
    before the last, in increasing order; one post per iteration. *)
Lemma send_loop_backoff (cfg : config) (fuel : nat) (attempt max_retries : Z)
    (url text : pystr) (net : Z -> attempt_outcome) :
  0 <= attempt ->
  let eff := snd (send_loop cfg fuel attempt max_retries url text net) in
  (forall d, In d (sleeps eff) -> exists i, attempt <= i < max_retries - 1 /\ d = 2 ^ i)
  /\ Sorted Z.lt (sleeps eff)
  /\ (count_posts eff <= fuel)%nat.
Proof.
  revert attempt; induction fuel as [|f IH]; intros attempt Ha; simpl.
  - repeat split; [intros d []|constructor|unfold count_posts; simpl; lia].
  - specialize (IH (attempt + 1) ltac:(lia)).
    destruct (send_loop cfg f (attempt + 1) max_retries url text net) as [ok eff] eqn:E;
      simpl in IH; destruct IH as [Hin [Hsort Hcnt]].
    destruct (net attempt) as [st b|e|e]; [destruct (st =? 200)|..]; simpl.
    + repeat split; [intros d []|constructor|unfold count_posts; simpl; lia].
    + repeat split.
      * intros d Hd; destruct (Hin d Hd) as [i [Hi ->]]; exists i; split; [lia|reflexivity].
      * exact Hsort.
      * unfold count_posts in *; simpl; lia.
    + rewrite sleeps_app; unfold count_posts in *; simpl; rewrite filter_app.
      destruct (attempt <? max_retries - 1) eqn:Eb; simpl; repeat split.
      * intros d [<-|Hd]; [exists attempt; apply Z.ltb_lt in Eb; split; [lia|reflexivity]|].
        destruct (Hin d Hd) as [i [Hi ->]]; exists i; split; [lia|reflexivity].
      * apply backoff_sorted; [exact Ha| |exact Hsort].
        intros d Hd; destruct (Hin d Hd) as [i [Hi ->]]; exists i; split; [lia|reflexivity].
      * lia.
      * intros d Hd; destruct (Hin d Hd) as [i [Hi ->]]; exists i; split; [lia|reflexivity].
      * exact Hsort.
      * lia.
    + rewrite sleeps_app; unfold count_posts in *; simpl; rewrite filter_app.
      destruct (attempt <? max_retries - 1) eqn:Eb; simpl; repeat split.
      * intros d [<-|Hd]; [exists attempt; apply Z.ltb_lt in Eb; split; [lia|reflexivity]|].
        destruct (Hin d Hd) as [i [Hi ->]]; exists i; split; [lia|reflexivity].
      * apply backoff_sorted; [exact Ha| |exact Hsort].
        intros d Hd; destruct (Hin d Hd) as [i [Hi ->]]; exists i; split; [lia|reflexivity].
      * lia.
      * intros d Hd; destruct (Hin d Hd) as [i [Hi ->]]; exists i; split; [lia|reflexivity].
      * exact Hsort.
      * lia.
Qed.

Lemma truncate_message_quiet (message : pystr) :
  count_posts (snd (truncate_message message)) = 0%nat
  /\ sleeps (snd (truncate_message message)) = [].
Proof. unfold truncate_message; destruct (_ <? _); split; reflexivity. Qed.

Lemma send_to_telegram_backoff (cfg : config) (message : pystr) (max_retries : Z)
    (net : Z -> attempt_outcome) :
  let eff := snd (send_to_telegram cfg message max_retries net) in
  (forall d, In d (sleeps eff) -> exists i, 0 <= i < max_retries - 1 /\ d = 2 ^ i)
  /\ Sorted Z.lt (sleeps eff)
  /\ (count_posts eff <= Z.to_nat max_retries)%nat.
Proof.
  pose proof (truncate_message_quiet message) as Hq.
  unfold send_to_telegram.
  destruct (truncate_message message) as [m' tl]; simpl in Hq; destruct Hq as [Hp Hs].
  pose proof (send_loop_backoff cfg (Z.to_nat max_retries) 0 max_retries
                (telegram_url cfg) m' net ltac:(lia)) as H.
  destruct (send_loop cfg _ 0 max_retries _ m' net) as [ok eff]; simpl in *.
  rewrite sleeps_app, count_posts_app, Hp, Hs; simpl; exact H.
Qed.

(** Extra (retry loop bounds): [send_to_telegram] posts at most
    [max_retries] times (never, and reports failure, when [max_retries] is
    not positive); every backoff delay is [2 ** i] seconds for an attempt
    [i] before the last one, and the delays strictly increase. *)
Theorem send_to_telegram_retry_bounds (cfg : config) (message : pystr) (max_retries : Z)
    (net : Z -> attempt_outcome) :
  let eff := snd (send_to_telegram cfg message max_retries net) in
  (count_posts eff <= Z.to_nat max_retries)%nat
  /\ (forall d, In d (sleeps eff) -> exists i, 0 <= i < max_retries - 1 /\ d = 2 ^ i)
  /\ Sorted Z.lt (sleeps eff)
  /\ (max_retries <= 0 -> fst (send_to_telegram cfg message max_retries net) = false).
Proof.
  destruct (send_to_telegram_backoff cfg message max_retries net) as [Hd [Hs Hc]].
  repeat split; [exact Hc|exact Hd|exact Hs|].
  intros Hle; unfold send_to_telegram.
  destruct (truncate_message message) as [m' tl].
  replace (Z.to_nat max_retries) with O by lia; reflexivity.
Qed.

(** A message within [MAX_MESSAGE_LENGTH] is posted unchanged. *)
Lemma send_short_posts (cfg : config) (message : pystr) (max_retries : Z)
    (net : Z -> attempt_outcome) u c t :
  Z.of_nat (length message) <= MAX_MESSAGE_LENGTH ->
  In (EPost u c t) (snd (send_to_telegram cfg message max_retries net)) ->
  u = telegram_url cfg /\ c = TELEGRAM_CHAT_ID cfg /\ t = message.
Proof.
  intros Hlen; unfold send_to_telegram, truncate_message.
  destruct (MAX_MESSAGE_LENGTH <? _) eqn:E; [apply Z.ltb_lt in E; lia|].
  destruct (send_loop _ _ _ _ _ _ _) as [ok eff] eqn:Es; simpl.
  intros H; apply (send_loop_posts cfg (Z.to_nat max_retries) 0 max_retries
                     (telegram_url cfg) message net); rewrite Es; exact H.
Qed.

(** The bounds an accepted payload meets, as the fields are read back
    with [data.get]. *)
Lemma validate_true_limits (data : json) :
  fst (validate_notification_data data) = true ->
  Z.of_nat (length (get_str data (lit "service") [])) <= MAX_SERVICE_LENGTH
  /\ Z.of_nat (length (get_str data (lit "event") [])) <= MAX_EVENT_LENGTH
  /\ Z.of_nat (length (get_str data (lit "message") [])) <= MAX_FIELD_LENGTH.
Proof.
  destruct data as [| | | | | |d]; simpl; try discriminate.
  unfold dict_has, is_str, str_len.
  destruct (dict_get d (lit "service")) as [[| | | |sv| |]|]; simpl; try discriminate;
  destruct (dict_get d (lit "message")) as [[| | | |mv| |]|]; simpl; try discriminate;
  destruct (MAX_SERVICE_LENGTH <? Z.of_nat (length sv)) eqn:E1; simpl; try discriminate;
  apply Z.ltb_ge in E1;
  destruct (dict_get d (lit "event")) as [[| | | |ev| |]|]; simpl; try discriminate;
  try (destruct (MAX_EVENT_LENGTH <? Z.of_nat (length ev)) eqn:E2; simpl; try discriminate;
       apply Z.ltb_ge in E2);
  destruct (MAX_FIELD_LENGTH <? Z.of_nat (length mv)) eqn:E3; simpl; try discriminate;
  apply Z.ltb_ge in E3; intros _; repeat split; try assumption; unfold MAX_EVENT_LENGTH; lia.
Qed.

Lemma check_rate_limit_effects (cfg : config) (s : rate_store) (ip : pystr) (now : Z) :
  count_posts (snd (check_rate_limit cfg s ip now)) = 0%nat
  /\ sleeps (snd (check_rate_limit cfg s ip now)) = [].
Proof. unfold check_rate_limit; destruct (_ <=? _); split; reflexivity. Qed.

Lemma no_post_in (l : list effect) u c t :
  count_posts l = 0%nat -> ~ In (EPost u c t) l.
Proof.
  unfold count_posts; intros H Hin.
  assert (In (EPost u c t) (filter is_post l)) by (apply filter_In; auto).
  destruct (filter is_post l); [contradiction|discriminate].
Qed.

Lemma telegram_message_length (data : json) :
  Z.of_nat (length (telegram_message data)) =
  4 + Z.of_nat (length (get_str data (lit "service") []))
    + Z.of_nat (length (get_str data (lit "message") [])).
Proof.
  unfold telegram_message, INFO_MARK, ERROR_MARK; destruct (get_bool _ _ _);
    rewrite !length_app; change (length (lit ": ")) with 2%nat; cbn [length]; lia.
Qed.

(** Extra (responses): the handler only ever answers 200, 400, 401, 429
    or 500; in particular its 503 branch is never taken. *)
Theorem webhook_status_cases (cfg : config) (st : state) (req : request) (en : env) :
  In (status (fst (fst (webhook cfg st req en)))) [200; 400; 401; 429; 500].
Proof. webhook_paths; simpl; tauto. Qed.

(** Extra (table changes): a request either leaves the table and the id
    counter alone and is not answered 200, or appends exactly one row,
    carrying the next id, and is answered 200, or else 500 because closing
    the connection failed after the commit. *)
Theorem webhook_table_changes (cfg : config) (st : state) (req : request) (en : env) :
  let '(resp, st', _) := webhook cfg st req en in
  (notifications st' = notifications st /\ next_row_id st' = next_row_id st
   /\ status resp <> 200)
  \/ (exists r, notifications st' = notifications st ++ [r]
      /\ row_id r = next_row_id st /\ next_row_id st' = next_row_id st + 1
      /\ (status resp = 200
          \/ (status resp = 500 /\ exists e, db_fault en = Some (DbClose, e)))).
Proof.
  webhook_paths;
    first [ left; split; [reflexivity|split; [reflexivity|discriminate]]
          | right; eexists; split; [reflexivity|split; [reflexivity|split; [reflexivity|]]];
            first [left; reflexivity | right; split; [reflexivity|eexists; reflexivity]] ].
Qed.

Lemma sorted_snoc_succ (l : list Z) (a : Z) :
  Sorted Z.lt (l ++ [a]) -> Sorted Z.lt (l ++ [a; a + 1]).
Proof.
  induction l as [|x l IH]; simpl; intros H.
  - repeat constructor; lia.
  - inversion H as [|? ? Hs Hhd]; subst; constructor; [apply IH; exact Hs|].
    destruct l as [|y l]; simpl in *; inversion Hhd; subst; constructor; assumption.
Qed.

(** Extra (ids): the ids of the stored rows strictly increase and stay
    below the id counter; every request keeps this, so a new row never
    reuses an id. *)
Theorem webhook_row_ids_increase (cfg : config) (st : state) (req : request) (en : env) :
  Sorted Z.lt (map row_id (notifications st) ++ [next_row_id st]) ->
  Sorted Z.lt (map row_id (notifications (snd (fst (webhook cfg st req en))))
               ++ [next_row_id (snd (fst (webhook cfg st req en)))]).
Proof.
  intros H; webhook_paths; try exact H;
    rewrite map_app, <- app_assoc; simpl; apply sorted_snoc_succ; exact H.
Qed.

Lemma webhook_row_ids_increase_witness :
  let en := example_env None (fun _ => AStatus 200 []) in
  let st := {| rate_limit_store := empty_rate_store;
               notifications := [notification_row (example_state 1) example_data (utc_now en);
                                 notification_row (example_state 2) example_data (utc_now en)];
               next_row_id := 3 |} in
  let st' := snd (fst (webhook example_cfg st (example_request (lit "secret")) en)) in
  Sorted Z.lt (map row_id (notifications st) ++ [next_row_id st]) /\
  Sorted Z.lt (map row_id (notifications st') ++ [next_row_id st']).
Proof.
  intros en st st'.
  split; [|apply webhook_row_ids_increase]; simpl; repeat constructor; lia.
Defined.

(** Extra (stored rows): every row the handler stores has a service and an
    event of at most 100 characters and a message of at most 1000 (an
    absent event is stored empty); so a table whose rows all meet these
    bounds keeps meeting them. *)
Theorem webhook_rows_within_limits (cfg : config) (st : state) (req : request) (en : env) :
  forallb row_within_limits (notifications st) = true ->
  forallb row_within_limits (notifications (snd (fst (webhook cfg st req en)))) = true.
Proof.
  intros H; webhook_paths; try exact H;
    rewrite forallb_app, H; simpl;
    destruct (validate_true_limits data) as [H1 [H2 H3]]; try (rewrite Ev; reflexivity);
    unfold row_within_limits; simpl;
    apply Z.leb_le in H1, H2, H3; rewrite H1, H2, H3; reflexivity.
Qed.

Lemma webhook_rows_within_limits_witness :
  forallb row_within_limits (notifications (example_state 1)) = true /\
  forallb row_within_limits
    (notifications (snd (fst (webhook example_cfg (example_state 1)
       (example_request (lit "secret")) (example_env None (fun _ => AStatus 200 [])))))) = true.
Proof.
  split; [reflexivity|].
  apply webhook_rows_within_limits; reflexivity.
Defined.

(** Extra (outbound message): every post the handler makes for a request
    with payload [data] goes to the bot's [sendMessage] url for the
    configured chat and carries [telegram_message data] whole: the
    validator's bounds keep it at most 1104 characters, so the notifier's
    truncation never applies. *)
Theorem webhook_posts_untruncated (cfg : config) (st : state) (req : request) (en : env)
    (data : json) :
  body req = inl data ->
  forall u c t, In (EPost u c t) (snd (webhook cfg st req en)) ->
    u = telegram_url cfg /\ c = TELEGRAM_CHAT_ID cfg /\ t = telegram_message data
    /\ Z.of_nat (length t) <= 4 + MAX_SERVICE_LENGTH + MAX_FIELD_LENGTH.
Proof.
  intros Hbody u c t.
  pose proof (check_rate_limit_effects cfg (rate_limit_store st) (client_ip req) (clock en))
    as Hq.
  webhook_paths; simpl in Hq; destruct Hq as [Hp _]; intros H;
    repeat (apply in_app_or in H; destruct H as [H|H]);
    try (exfalso; exact (no_post_in _ u c t Hp H));
    try (simpl in H; intuition discriminate).
  injection Hbody as ->.
  destruct (validate_true_limits data) as [H1 [_ H3]]; [rewrite Ev; reflexivity|].
  pose proof (telegram_message_length data) as Hlen.
  simpl in H; destruct H as [H|[H|H]]; try discriminate.
  assert (Hin : In (EPost u c t) (snd (send_to_telegram cfg (telegram_message data) 3
                                                       (telegram en))))
    by (rewrite Etg; exact H).
  apply send_short_posts in Hin as [-> [-> ->]];
    [|rewrite Hlen; unfold MAX_MESSAGE_LENGTH; unfold MAX_SERVICE_LENGTH, MAX_FIELD_LENGTH in *; lia].
  repeat split; rewrite Hlen; unfold MAX_SERVICE_LENGTH, MAX_FIELD_LENGTH in *; lia.
Qed.

Lemma webhook_posts_untruncated_witness :
  body (example_request (lit "secret")) = inl example_data /\
  forall u c t,
    In (EPost u c t) (snd (webhook example_cfg (example_state 1) (example_request (lit "secret"))
                            (example_env None (fun _ => AStatus 200 [])))) ->
    u = telegram_url example_cfg /\ c = TELEGRAM_CHAT_ID example_cfg
    /\ t = telegram_message example_data
    /\ Z.of_nat (length t) <= 4 + MAX_SERVICE_LENGTH + MAX_FIELD_LENGTH.
Proof.
  split; [reflexivity|].
  exact (webhook_posts_untruncated example_cfg (example_state 1) (example_request (lit "secret"))
           (example_env None (fun _ => AStatus 200 [])) example_data eq_refl).
Defined.

(** Strictly increasing delays of the form [2 ** i] with [i < 2] sum to at
    most 3. *)
Lemma backoff_sum_le_3 (l : list Z) :
  (forall d, In d l -> exists i, 0 <= i < 3 - 1 /\ d = 2 ^ i) ->
  Sorted Z.lt l -> fold_right Z.add 0 l <= 3.
Proof.
  intros Hl Hs.
  assert (Hv : forall d, In d l -> d = 1 \/ d = 2).
  { intros d Hd; destruct (Hl d Hd) as [i [Hi ->]].
    assert (i = 0 \/ i = 1) as [-> | ->] by lia; auto. }
  destruct l as [|a [|b [|c l]]]; simpl.
  - lia.
  - destruct (Hv a) as [-> | ->]; simpl; auto; lia.
  - inversion Hs as [|? ? _ Hhd]; inversion Hhd; subst.
    destruct (Hv a) as [-> | ->]; simpl; auto;
      destruct (Hv b) as [-> | ->]; simpl; auto; lia.
  - inversion Hs as [|? ? Hs' Hhd]; inversion Hhd; subst.
    inversion Hs' as [|? ? _ Hhd']; inversion Hhd'; subst.
    destruct (Hv a) as [-> | ->]; simpl; auto;
      destruct (Hv b) as [-> | ->]; simpl; auto;
      destruct (Hv c) as [-> | ->]; simpl; auto; lia.
Qed.

(** Extra (cost of a request): one request makes at most 3 posts to the
    Telegram API and sleeps at most 1 + 2 = 3 seconds in backoff. *)
Theorem webhook_bounded_retries (cfg : config) (st : state) (req : request) (en : env) :
  let eff := snd (webhook cfg st req en) in
  (count_posts eff <= 3)%nat /\ fold_right Z.add 0 (sleeps eff) <= 3.
Proof.
  pose proof (check_rate_limit_effects cfg (rate_limit_store st) (client_ip req) (clock en))
    as Hq.
  webhook_paths; simpl in Hq; destruct Hq as [Hp Hs];
    rewrite ?count_posts_app, ?sleeps_app, ?Hp, ?Hs; simpl;
    try (split; [unfold count_posts; simpl; lia|lia]).
  pose proof (send_to_telegram_backoff cfg (telegram_message data) 3 (telegram en)) as Hb.
  rewrite Etg in Hb; simpl in Hb; destruct Hb as [Hd [Hsort Hc]].
  unfold count_posts in *; simpl; split; [lia|].
  apply backoff_sum_le_3; assumption.
Qed.

Lemma dict_get_app_other (d : list (pystr * json)) (k k' : pystr) (v : json) :
  k <> k' -> dict_get (d ++ [(k, v)]) k' = dict_get d k'.
Proof.
  intros Hne; induction d as [|[k0 v0] d IH]; simpl.
  - now rewrite pystr_eqb_neq.
  - destruct (pystr_eqb k0 k'); [reflexivity|exact IH].
Qed.

Section ExtraKey.
Variables (d : list (pystr * json)) (k : pystr) (v : json).
Hypothesis Hk : ~ In k payload_keys.

Let Hget (k' : pystr) : In k' payload_keys -> dict_get (d ++ [(k, v)]) k' = dict_get d k'.
Proof. intros H; apply dict_get_app_other; intros ->; contradiction. Qed.

Lemma validate_extra_key :
  validate_notification_data (JObj (d ++ [(k, v)])) = validate_notification_data (JObj d).
Proof.
  unfold validate_notification_data, dict_has.
  rewrite !Hget by (simpl; tauto); reflexivity.
Qed.

Lemma notification_row_extra_key (st : state) (now : utc_datetime) :
  notification_row st (JObj (d ++ [(k, v)])) now = notification_row st (JObj d) now.
Proof.
  unfold notification_row, get_str, get_bool.
  rewrite !Hget by (simpl; tauto); reflexivity.
Qed.

Lemma telegram_message_extra_key :
  telegram_message (JObj (d ++ [(k, v)])) = telegram_message (JObj d).
Proof.
  unfold telegram_message, get_str, get_bool.
  rewrite !Hget by (simpl; tauto); reflexivity.
Qed.

End ExtraKey.

(** Extra (unknown fields): a payload key other than [service], [event],
    [message] and [error] (one the payload does not already hold) changes
    nothing: the handler answers, stores, logs and posts exactly as it does
    for the payload without it. *)
Theorem webhook_ignores_extra_key (cfg : config) (st : state) (en : env)
    (r : option pystr) (h : list (pystr * pystr)) (d : list (pystr * json))
    (k : pystr) (v : json) :
  ~ In k payload_keys ->
  dict_get d k = None ->
  webhook cfg st {| remote := r; headers := h; body := inl (JObj (d ++ [(k, v)])) |} en
  = webhook cfg st {| remote := r; headers := h; body := inl (JObj d) |} en.
Proof.
  intros Hk _.
  unfold webhook, webhook_try, save_notification; cbn [body remote headers].
  destruct (check_rate_limit _ _ _ _) as [[allowed store'] eff_rl].
  rewrite (validate_extra_key d k v Hk), !(notification_row_extra_key d k v Hk),
    (telegram_message_extra_key d k v Hk).
  reflexivity.
Qed.

Lemma webhook_ignores_extra_key_witness :
  let d := [(lit "service", JStr (lit "billing")); (lit "message", JStr (lit "payment failed"));
            (lit "error", JBool true)] in
  let en := example_env None (fun _ => AStatus 200 []) in
  ~ In (lit "priority") payload_keys /\ dict_get d (lit "priority") = None /\
  webhook example_cfg (example_state 1)
    {| remote := Some (lit "10.0.0.1"); headers := [(lit "API-Key", lit "secret")];
       body := inl (JObj (d ++ [(lit "priority", JInt 5)])) |} en
  = webhook example_cfg (example_state 1)
      {| remote := Some (lit "10.0.0.1"); headers := [(lit "API-Key", lit "secret")];
         body := inl (JObj d) |} en.
Proof.
  intros d en.
  assert (Hk : ~ In (lit "priority") payload_keys) by (vm_compute; intuition discriminate).
  assert (Hd : dict_get d (lit "priority") = None) by reflexivity.
  split; [exact Hk|split; [exact Hd|]].
  exact (webhook_ignores_extra_key example_cfg (example_state 1) en (Some (lit "10.0.0.1"))
           [(lit "API-Key", lit "secret")] d (lit "priority") (JInt 5) Hk Hd).
Defined.

Lemma name_eqb_refl (n : pystr) : name_eqb n n = true.
Proof. unfold name_eqb; apply pystr_eqb_refl. Qed.

Lemma find_object_snoc (s : list schema_object) (o : schema_object) (n : pystr) :
  find_object (s ++ [o]) n =
  match find_object s n with
  | Some x => Some x
  | None => if name_eqb (object_name o) n then Some o else None
  end.
Proof.
  unfold find_object; induction s as [|x s IH]; simpl; [reflexivity|].
  destruct (name_eqb (object_name x) n); [reflexivity|exact IH].
Qed.

(** A statement only appends: what a name resolved to stays. *)
Lemma exec_ddl_mono (s s' : list schema_object) (stmt : ddl) :
  exec_ddl s stmt = inr s' ->
  forall n x, find_object s n = Some x -> find_object s' n = Some x.
Proof.
  intros H n x Hx.
  destruct stmt as [m cols|m t c]; simpl in H.
  - destruct (find_object s m) as [[]|]; inversion H; subst; [exact Hx|].
    rewrite find_object_snoc, Hx; reflexivity.
  - destruct (find_object s t) as [[? cols|]|]; try discriminate.
    destruct (find_object s m) as [[]|]; try discriminate; [inversion H; subst; exact Hx|].
    destruct (existsb _ cols); inversion H; subst.
    rewrite find_object_snoc, Hx; reflexivity.
Qed.

Lemma ddl_done_mono (s s' : list schema_object) (stmt stmt' : ddl) :
  exec_ddl s stmt = inr s' -> ddl_done s stmt' = true -> ddl_done s' stmt' = true.
Proof.
  intros H; destruct stmt' as [m cols|m t c]; simpl.
  - destruct (find_object s m) as [x|] eqn:E; [|discriminate].
    rewrite (exec_ddl_mono s s' stmt H m x E); exact (fun h => h).
  - destruct (find_object s m) as [x|] eqn:E; [|discriminate].
    destruct (find_object s t) as [y|] eqn:E'; [|rewrite andb_false_r; discriminate].
    rewrite (exec_ddl_mono s s' stmt H m x E), (exec_ddl_mono s s' stmt H t y E').
    exact (fun h => h).
Qed.

(** A statement that succeeds leaves its object in place. *)
Lemma exec_ddl_done (s s' : list schema_object) (stmt : ddl) :
  exec_ddl s stmt = inr s' -> ddl_done s' stmt = true.
Proof.
  intros H; pose proof (ddl_done_mono s s' stmt) as Hm.
  destruct stmt as [m cols|m t c]; simpl in *.
  - destruct (find_object s m) as [[]|] eqn:E; inversion H; subst.
    + rewrite E; reflexivity.
    + rewrite find_object_snoc, E; simpl; rewrite name_eqb_refl; reflexivity.
  - destruct (find_object s t) as [[? cols|]|] eqn:Et; try discriminate.
    destruct (find_object s m) as [[]|] eqn:E; try discriminate.
    + inversion H; subst; rewrite E, Et; reflexivity.
    + destruct (existsb _ cols); inversion H; subst.
      rewrite !find_object_snoc, E, Et; simpl; rewrite name_eqb_refl; reflexivity.
Qed.

Lemma run_ddl_mono (s : list schema_object) (stmts : list ddl) (i : nat)
    (fault : option (nat * db_exn)) (s' : list schema_object) :
  run_ddl s stmts i fault = (None, s') ->
  forall stmt, ddl_done s stmt = true -> ddl_done s' stmt = true.
Proof.
  revert s i; induction stmts as [|st rest IH]; intros s i H stmt Hd; simpl in H.
  - inversion H; subst; exact Hd.
  - destruct (fault_at fault i); [discriminate|].
    destruct (exec_ddl s st) as [msg|s1] eqn:E; [discriminate|].
    apply (IH s1 (S i) H); exact (ddl_done_mono s s1 st stmt E Hd).
Qed.

Lemma run_ddl_done (s : list schema_object) (stmts : list ddl) (i : nat)
    (fault : option (nat * db_exn)) (s' : list schema_object) :
  run_ddl s stmts i fault = (None, s') -> forallb (ddl_done s') stmts = true.
Proof.
  revert s i; induction stmts as [|st rest IH]; intros s i H; simpl in *; [reflexivity|].
  destruct (fault_at fault i); [discriminate|].
  destruct (exec_ddl s st) as [msg|s1] eqn:E; [discriminate|].
  rewrite (IH s1 (S i) H), andb_true_r.
  exact (run_ddl_mono s1 rest (S i) fault s' H st (exec_ddl_done s s1 st E)).
Qed.

(** Whatever the fault, a successful [create_table] leaves the schema
    ready. *)
Lemma create_table_ready (schema s1 : list schema_object) (fault : option (nat * db_exn))
    (eff : list effect) :
  create_table schema fault = (inr tt, s1, eff) -> schema_ready s1 = true.
Proof.
  unfold create_table.
  destruct (fault_at fault 0) as [e|]; [intros H; destruct e; discriminate H|].
  destruct (run_ddl schema create_table_statements 1 fault) as [[e|] s] eqn:E;
    [intros H; destruct e; discriminate H|].
  destruct (fault_at fault 5) as [e|]; [intros H; destruct e; discriminate H|].
  destruct (fault_at fault 6) as [e|]; [intros H; destruct e; discriminate H|].
  intros H; inversion H; subst.
  exact (run_ddl_done schema create_table_statements 1 fault s1 E).
Qed.

(** Statements whose objects are all in place do nothing. *)
Lemma run_ddl_noop (s : list schema_object) (stmts : list ddl) (i : nat) :
  forallb (ddl_done s) stmts = true -> run_ddl s stmts i None = (None, s).
Proof.
  revert i; induction stmts as [|st rest IH]; intros i H; simpl in *; [reflexivity|].
  apply andb_true_iff in H as [Hst Hrest].
  assert (E : exec_ddl s st = inr s).
  { destruct st as [m cols|m t c]; simpl in *.
    - destruct (find_object s m) as [[]|]; [reflexivity|discriminate..].
    - destruct (find_object s m) as [[]|]; try discriminate.
      destruct (find_object s t) as [[]|]; [reflexivity|discriminate..]. }
  rewrite E; apply IH; exact Hrest.
Qed.

(** Extra (schema setup): [IF NOT EXISTS] looks at names only.  When
    [create_table] succeeds, a table named [notifications] and indexes named
    [idx_service], [idx_created_at] and [idx_error] exist, and running it
    again succeeds without changing the schema, so the setup can be run at
    every start.  On a schema holding none of these four names it adds
    exactly the table with its six columns and the three indexes on
    [service], [created_at] and [error].  An object already holding one of
    the names stands in for it: with a pre-existing [idx_service] on
    another table, [create_table] succeeds and no index is on
    [notifications(service)]. *)
Theorem create_table_idempotent :
  (forall (schema s1 : list schema_object) (fault : option (nat * db_exn)) (eff : list effect),
     create_table schema fault = (inr tt, s1, eff) ->
     schema_ready s1 = true
     /\ create_table s1 None =
        (inr tt, s1, [ELog INFO (lit "Database table and indexes created successfully")]))
  /\
  (forall schema : list schema_object,
     find_object schema (lit "notifications") = None ->
     find_object schema (lit "idx_service") = None ->
     find_object schema (lit "idx_created_at") = None ->
     find_object schema (lit "idx_error") = None ->
     create_table schema None =
     (inr tt,
      schema ++ [STable (lit "notifications") TABLE_COLUMNS;
                 SIndex (lit "idx_service") (lit "notifications") (lit "service");
                 SIndex (lit "idx_created_at") (lit "notifications") (lit "created_at");
                 SIndex (lit "idx_error") (lit "notifications") (lit "error")],
      [ELog INFO (lit "Database table and indexes created successfully")]))
  /\
  (exists s1 eff,
     create_table [STable (lit "other") [lit "x"];
                   SIndex (lit "idx_service") (lit "other") (lit "x")] None
     = (inr tt, s1, eff)
     /\ has_index_on s1 (lit "notifications") (lit "service") = false).
Proof.
  split; [|split].
  - intros schema s1 fault eff H; pose proof (create_table_ready schema s1 fault eff H) as Hd.
    split; [exact Hd|].
    unfold create_table; cbn [fault_at].
    rewrite (run_ddl_noop s1 create_table_statements 1 Hd); reflexivity.
  - intros schema H1 H2 H3 H4.
    set (T := STable (lit "notifications") TABLE_COLUMNS).
    set (I1 := SIndex (lit "idx_service") (lit "notifications") (lit "service")).
    set (I2 := SIndex (lit "idx_created_at") (lit "notifications") (lit "created_at")).
    set (I3 := SIndex (lit "idx_error") (lit "notifications") (lit "error")).
    assert (E1 : exec_ddl schema (CreateTable (lit "notifications") TABLE_COLUMNS)
                 = inr (schema ++ [T])) by (unfold exec_ddl; rewrite H1; reflexivity).
    assert (E2 : exec_ddl (schema ++ [T])
                   (CreateIndex (lit "idx_service") (lit "notifications") (lit "service"))
                 = inr ((schema ++ [T]) ++ [I1])).
    { unfold exec_ddl; rewrite !find_object_snoc, H1, H2; reflexivity. }
    assert (E3 : exec_ddl ((schema ++ [T]) ++ [I1])
                   (CreateIndex (lit "idx_created_at") (lit "notifications") (lit "created_at"))
                 = inr (((schema ++ [T]) ++ [I1]) ++ [I2])).
    { unfold exec_ddl; rewrite !find_object_snoc, H1, H3; reflexivity. }
    assert (E4 : exec_ddl (((schema ++ [T]) ++ [I1]) ++ [I2])
                   (CreateIndex (lit "idx_error") (lit "notifications") (lit "error"))
                 = inr ((((schema ++ [T]) ++ [I1]) ++ [I2]) ++ [I3])).
    { unfold exec_ddl; rewrite !find_object_snoc, H1, H4; reflexivity. }
    unfold create_table, create_table_statements; cbn [fault_at run_ddl].
    rewrite E1, E2, E3, E4, <- !app_assoc; reflexivity.
  - eexists; eexists; split; [vm_compute; reflexivity|vm_compute; reflexivity].
Qed.

Lemma create_table_idempotent_witness :
  let schema := [STable (lit "Notifications") TABLE_COLUMNS;
                 SIndex (lit "idx_service") (lit "Notifications") (lit "service")] in
  let fault := Some (7%nat, DbOtherError (lit "unused")) in
  let r := create_table schema fault in
  (create_table schema fault = (inr tt, snd (fst r), snd r) /\
   (schema_ready (snd (fst r)) = true
    /\ create_table (snd (fst r)) None =
       (inr tt, snd (fst r), [ELog INFO (lit "Database table and indexes created successfully")])))
  /\
  create_table [] None =
  (inr tt,
   [] ++ [STable (lit "notifications") TABLE_COLUMNS;
          SIndex (lit "idx_service") (lit "notifications") (lit "service");
          SIndex (lit "idx_created_at") (lit "notifications") (lit "created_at");
          SIndex (lit "idx_error") (lit "notifications") (lit "error")],
   [ELog INFO (lit "Database table and indexes created successfully")]).
Proof.
  intros schema fault r.
  assert (H : create_table schema fault = (inr tt, snd (fst r), snd r))
    by (vm_compute; reflexivity).
  split; [split; [exact H|exact (proj1 create_table_idempotent schema _ fault _ H)]|].
  apply (proj1 (proj2 create_table_idempotent) []); reflexivity.
Defined.

(** Extra (startup): the server is started only when getting the event
    loop, [create_table] (which then has put the table and its indexes in
    place), [ssl.create_default_context], [init_app] and [web.run_app] all
    raise nothing; it serves plain HTTP exactly when loading the
    certificates raised [FileNotFoundError].  Every other outcome (no event
    loop, a failed schema setup, a failing SSL context, any other
    certificate error, a failing [init_app] or [run_app]) ends with exit
    code 1. *)
Theorem main_startup (sc : server_config) (schema : list schema_object) (senv : startup_env) :
  match main sc schema senv with
  | (Serving ssl, s1, _) =>
      loop_error senv = None /\ schema_ready s1 = true
      /\ ssl_context_error senv = None /\ init_app_error senv = None
      /\ run_app_error senv = None
      /\ (ssl = false <-> exists m, cert_load senv = Some (SFileNotFoundError m))
  | (Exited code, _, _) =>
      code = 1 /\
      (loop_error senv <> None
       \/ fst (fst (create_table schema (table_fault senv))) <> inr tt
       \/ ssl_context_error senv <> None
       \/ (exists e, cert_load senv = Some e /\ forall m, e <> SFileNotFoundError m)
       \/ init_app_error senv <> None
       \/ run_app_error senv <> None)
  end.
Proof.
  unfold main.
  destruct (loop_error senv) as [el|] eqn:El.
  { destruct el; simpl; split; [reflexivity|left; discriminate|
                                reflexivity|left; discriminate|
                                reflexivity|left; discriminate]. }
  destruct (create_table schema (table_fault senv)) as [[[e|[]] s1] eff] eqn:Ec.
  { simpl; split; [reflexivity|right; left; discriminate]. }
  pose proof (create_table_ready schema s1 (table_fault senv) eff Ec) as Hready.
  destruct (ssl_context_error senv) as [es|] eqn:Es.
  { destruct es; simpl; (split; [reflexivity|right; right; left; discriminate]). }
  destruct (cert_load senv) as [[m|m|m]|] eqn:Ecert; simpl;
    try (split; [reflexivity|right; right; right; left; eexists; split;
                             [reflexivity|discriminate]]);
    destruct (init_app_error senv) as [[mi|mi|mi]|] eqn:Ei; simpl;
    try (split; [reflexivity|right; right; right; right; left; discriminate]);
    destruct (run_app_error senv) as [[mr|mr|mr]|] eqn:Er; simpl;
    try (split; [reflexivity|right; right; right; right; right; discriminate]).
  - split; [reflexivity|split; [exact Hready|]].
    split; [reflexivity|split; [reflexivity|split; [reflexivity|]]].
    split; [intros _; eexists; reflexivity|reflexivity].
  - split; [reflexivity|split; [exact Hready|]].
    split; [reflexivity|split; [reflexivity|split; [reflexivity|]]].
    split; [discriminate|intros [m0 Hm]; discriminate].
Qed.
